(** * image-carousel-scoped.ts: the scoped lightbox controller

    A shallow embedding of [src/scripts/image-carousel-scoped.ts].

    - JavaScript numbers that the controller uses as indices are integers;
      they are modelled by [Z].  The remainder operator [%] truncates
      towards zero (the sign of the result is the sign of the dividend),
      which is [Z.rem].  Negative zero is identified with zero: the code
      only indexes arrays with it, adds one to it or compares it with
      [===], and all three treat the two zeros alike.  Sums of integers
      are exact as long as they stay within [max_safe]; a theorem that
      takes an arbitrary index says where it needs that.
    - Touch coordinates ([clientX], [clientY]) are finite doubles, hence
      rationals ([Q]); their difference is the exact difference rounded
      to the nearest double ([double_sub]).
    - The overflow styles belong to the document, which other carousel
      instances write too; their [lockScroll] is an event of its own.
      The element that holds the focus is assumed to stay in the
      document; a button of the thumbnail strip does not when the strip
      is rebuilt.
    - The closure variables of [initCarousel] form the record [State],
      together with the part of the document the instance writes to
      ([Dom]).  Functions of the closure are state transformers.
    - A [State] is an instance that passed the guard of source lines
      39-52: every required element was found; only the progress element
      may be missing.
    - The only exception the controller can raise is the [TypeError] of
      reading a property of [undefined]; a handler therefore returns a
      [completion] next to the state it leaves behind. *)

From Stdlib Require Import ZArith QArith Qabs Lqa List String Ascii Bool Lia DecimalString.
From Stdlib Require DecimalPos.
Import ListNotations.
Local Open Scope string_scope.
Local Open Scope Z_scope.

Set Implicit Arguments.

(** ** Numbers *)

(** A number as [Number(...)] may produce it.  Only integral values can
    name an element of an array; NaN, the infinities and fractional values
    are kept apart as [NotInt]. *)
Inductive number : Type :=
| Int (z : Z)
| NotInt.

(** [`${n}`] for an integral number. *)
Definition toString (n : Z) : string :=
  NilZero.string_of_int (Z.to_int n).

(** [Number.MAX_SAFE_INTEGER]: up to it, in magnitude, integers and their
    sums are doubles without rounding. *)
Definition max_safe : Z := 2 ^ 53 - 1.

(** [floor (log2 (a / b))] for [a > 0]. *)
Definition floor_log2 (a : Z) (b : positive) : Z :=
  let k := Z.log2 a - Z.log2 (Z.pos b) in
  if (if 0 <=? k then Z.pos b * 2 ^ k <=? a else Z.pos b <=? a * 2 ^ (- k))
  then k else k - 1.

(** [n / d] rounded to the nearest integer, a tie to the even one. *)
Definition round_half_even (n d : Z) : Z :=
  let q := n / d in
  match 2 * (n mod d) ?= d with
  | Lt => q
  | Gt => q + 1
  | Eq => if Z.even q then q else q + 1
  end.

(** A rational rounded to the nearest IEEE 754 double (53 significant
    bits, exponents down to the subnormal [2^-1074], ties to even).  An
    infinity is represented by [2^1024], above every finite double, which
    keeps every comparison as it is on doubles. *)
Definition round_double (q : Q) : Q :=
  let a := Z.abs (Qnum q) in
  let b := Qden q in
  if a =? 0 then 0%Q
  else
    let e := Z.max (floor_log2 a b - 52) (- 1074) in
    let m := if 0 <=? e then round_half_even a (Z.pos b * 2 ^ e)
             else round_half_even (a * 2 ^ (- e)) (Z.pos b) in
    let r := if 0 <=? e
             then inject_Z (Z.min (m * 2 ^ e) (2 ^ 1024))
             else Qmake m (Z.to_pos (2 ^ (- e))) in
    if Qnum q <? 0 then Qopp r else r.

(** [x - y] on doubles. *)
Definition double_sub (x y : Q) : Q := round_double (x - y).

(** [arr[i]] for an integral [i]: [undefined] outside [0 .. length-1]. *)
Definition item {A : Type} (arr : list A) (i : Z) : option A :=
  if i <? 0 then None else nth_error arr (Z.to_nat i).

(** [arr[n]] for any number. *)
Definition item_number {A : Type} (arr : list A) (n : number) : option A :=
  match n with
  | Int z => item arr z
  | NotInt => None
  end.

(** [arr.length]. *)
Definition len {A : Type} (arr : list A) : Z := Z.of_nat (List.length arr).

(** [s || dflt] on strings: the empty string is falsy. *)
Definition str_or (s dflt : string) : string :=
  if String.eqb s "" then dflt else s.

(** ** Types of the payload (source lines 7-9) *)

Module SubImg.
Record t : Type := mk
  { src : string; alt : option string; detail : option string }.
End SubImg.

Module Project.
Record t : Type := mk
  { src : string; alt : string; detail : string;
    gallery : option (list SubImg.t) }.
End Project.

Module Slide.
Record t : Type := mk
  { src : string; alt : string; detail : option string }.
End Slide.

(** [a ?? b]. *)
Definition nullish {A : Type} (a : option A) (b : A) : A :=
  match a with
  | Some x => x
  | None => b
  end.

(** ** Module-level helpers (source lines 17-18) *)

Definition is_letter (c : ascii) : bool :=
  let n := nat_of_ascii c in
  ((65 <=? n)%nat && (n <=? 90)%nat) || ((97 <=? n)%nat && (n <=? 122)%nat).

Fixpoint contains_gt (l : list ascii) : bool :=
  match l with
  | [] => false
  | c :: r => Ascii.eqb c ">" || contains_gt r
  end.

(** The regular expression [/<[a-z][\s\S]*>/i]: a ['<'], a letter, and a
    ['>'] anywhere after it. *)
Fixpoint matches_tag (l : list ascii) : bool :=
  match l with
  | [] => false
  | c :: r =>
      (Ascii.eqb c "<" &&
       match r with
       | d :: r' => is_letter d && contains_gt r'
       | [] => false
       end)
      || matches_tag r
  end.

(** [hasHTML = (s?: string) => !!s && /<[a-z][\s\S]*>/i.test(s)] *)
Definition hasHTML (s : option string) : bool :=
  match s with
  | None => false
  | Some s => negb (String.eqb s "") && matches_tag (list_ascii_of_string s)
  end.

(** [clamp = (i, len) => (len ? (i + len) % len : 0)] *)
Definition clamp (i len : Z) : Z :=
  if len =? 0 then 0 else Z.rem (i + len) len.

(** The wrap-around that the specification describes:
    [((i % len) + len) % len], and [0] for an empty sequence. *)
Definition spec_wrap (i len : Z) : Z :=
  if len =? 0 then 0 else Z.rem (Z.rem i len + len) len.

(** ** Slide builder (source lines 72-80) *)

Definition buildSlides (p : Project.t) : list Slide.t :=
  let main := Slide.mk (Project.src p) (Project.alt p) (Some (Project.detail p)) in
  let extras :=
    map (fun g => Slide.mk (SubImg.src g)
                           (nullish (SubImg.alt g) (Project.alt p))
                           (Some (nullish (SubImg.detail g) (Project.detail p))))
        (nullish (Project.gallery p) []) in
  main :: extras.

(** ** [Number(...)] on an attribute value

    The conversion of a string follows the grammar of ECMAScript's
    StringNumericLiteral: surrounding white space is dropped, the empty
    string is [0], then either a binary, octal or hexadecimal integer
    ([0b], [0o], [0x]) or a signed decimal literal with an optional
    fraction and exponent, or [Infinity]; every other string is NaN.
    The mathematical value is kept exactly (no rounding to a double),
    and only ASCII white space is recognised. *)

Definition is_ws (c : ascii) : bool :=
  let n := nat_of_ascii c in
  ((9 <=? n)%nat && (n <=? 13)%nat) || (n =? 32)%nat.

Definition is_digit (c : ascii) : bool :=
  let n := nat_of_ascii c in (48 <=? n)%nat && (n <=? 57)%nat.

Fixpoint drop_ws (l : list ascii) : list ascii :=
  match l with
  | c :: r => if is_ws c then drop_ws r else l
  | [] => []
  end.

Definition trim (l : list ascii) : list ascii :=
  rev (drop_ws (rev (drop_ws l))).

(** Value of one digit in a base up to 16, if it is one. *)
Definition digit_in (base : Z) (c : ascii) : option Z :=
  let n := Z.of_nat (nat_of_ascii c) in
  let v := if (48 <=? n) && (n <=? 57) then Some (n - 48)
           else if (97 <=? n) && (n <=? 102) then Some (n - 87)
           else if (65 <=? n) && (n <=? 70) then Some (n - 55)
           else None in
  match v with
  | Some d => if d <? base then Some d else None
  | None => None
  end.

(** Value of a sequence made of digits of the base only. *)
Fixpoint digits_value (base acc : Z) (l : list ascii) : option Z :=
  match l with
  | [] => Some acc
  | c :: r =>
      match digit_in base c with
      | Some d => digits_value base (acc * base + d) r
      | None => None
      end
  end.

(** The longest prefix of decimal digits, and what follows it. *)
Fixpoint span_digits (l : list ascii) : list ascii * list ascii :=
  match l with
  | c :: r =>
      if is_digit c then let (d, rest) := span_digits r in (c :: d, rest)
      else ([], l)
  | [] => ([], [])
  end.

Definition decimal_value (l : list ascii) : Z :=
  nullish (digits_value 10 0 l) 0.

Definition is_nil {A : Type} (l : list A) : bool :=
  match l with
  | [] => true
  | _ => false
  end.

(** An optional exponent part that must end the literal. *)
Definition exponent (l : list ascii) : option Z :=
  match l with
  | [] => Some 0
  | c :: r =>
      if Ascii.eqb c "e" || Ascii.eqb c "E" then
        let (sgn, r1) :=
          match r with
          | s :: r' =>
              if Ascii.eqb s "+" then (1, r')
              else if Ascii.eqb s "-" then (-1, r')
              else (1, r)
          | [] => (1, r)
          end in
        let (d, rest) := span_digits r1 in
        if is_nil d || negb (is_nil rest) then None
        else Some (sgn * decimal_value d)
      else None
  end.

(** An unsigned decimal literal other than [Infinity]. *)
Definition unsigned_decimal (sgn : Z) (l : list ascii) : number :=
  let (ip, l2) := span_digits l in
  let (fp, l3) :=
    match l2 with
    | c :: r => if Ascii.eqb c "." then span_digits r else ([], l2)
    | [] => ([], l2)
    end in
  if is_nil ip && is_nil fp then NotInt
  else
    match exponent l3 with
    | None => NotInt
    | Some e =>
        let m := decimal_value (ip ++ fp) in
        let k := e - len fp in
        if 0 <=? k then Int (sgn * m * 10 ^ k)
        else if Z.rem m (10 ^ (- k)) =? 0 then Int (sgn * Z.quot m (10 ^ (- k)))
        else NotInt
    end.

Definition signed_decimal (l : list ascii) : number :=
  let (sgn, r) :=
    match l with
    | c :: r' =>
        if Ascii.eqb c "+" then (1, r')
        else if Ascii.eqb c "-" then (-1, r')
        else (1, l)
    | [] => (1, l)
    end in
  if String.eqb (string_of_list_ascii r) "Infinity" then NotInt
  else unsigned_decimal sgn r.

Definition non_decimal (base : Z) (l : list ascii) : number :=
  if is_nil l then NotInt
  else
    match digits_value base 0 l with
    | Some v => Int v
    | None => NotInt
    end.

Definition StringToNumber (s : string) : number :=
  match trim (list_ascii_of_string s) with
  | [] => Int 0
  | c :: r =>
      match r with
      | p :: ds =>
          if Ascii.eqb c "0" && (Ascii.eqb p "x" || Ascii.eqb p "X") then non_decimal 16 ds
          else if Ascii.eqb c "0" && (Ascii.eqb p "o" || Ascii.eqb p "O") then non_decimal 8 ds
          else if Ascii.eqb c "0" && (Ascii.eqb p "b" || Ascii.eqb p "B") then non_decimal 2 ds
          else signed_decimal (c :: r)
      | [] => signed_decimal (c :: r)
      end
  end.

(** [Number(raw ?? 0)], where [raw] is what [getAttribute] returned. *)
Definition Number_or_0 (raw : option string) : number :=
  match raw with
  | Some s => StringToNumber s
  | None => Int 0
  end.

(** ** The document as the instance sees it *)

(** An element that can hold the focus. *)
Inductive Element : Type :=
| CloseBtn
| Elem (id : nat).

(** One button of the thumbnail strip, as [renderThumbs] builds it; the
    attributes that are the same for every button ([type], the class
    names, [loading]) are left out. *)
Record Thumb : Type := mkThumb
  { aria_label : string;
    thumb_src : string;
    thumb_alt : string;
    highlighted : bool;     (* the ring classes of the overlay [div] *)
    goes_to : Z }.          (* the [i] its click listener passes to [showSlide] *)

(** What the detail panel holds. *)
Inductive Content : Type :=
| InnerHTML (markup : string)
| TextContent (text : string).

Record Dom : Type := mkDom
  { modal_hidden : bool;               (* [modal.classList] has "hidden" *)
    modal_aria_hidden : option string; (* the [aria-hidden] attribute *)
    html_overflow : string;            (* [document.documentElement.style.overflow] *)
    body_overflow : string;            (* [document.body.style.overflow] *)
    activeElement : option Element;    (* [document.activeElement] *)
    img_opacity : string;
    img_transition : string;
    img_src : string;
    img_alt : string;
    img_onload : nat;                  (* registered [onLoad] listeners *)
    title_text : string;
    content : Content;
    thumbs : list Thumb;
    progress : option string }.        (* [None]: no progress element *)

(** Closure variables of [initCarousel] (source lines 55-59 and 206-208),
    the animation-frame callbacks not yet run (each closes over its slide),
    the image sources requested by the preloader, and the document. *)
Record State : Type := mkState
  { projects : list Project.t;
    currentProject : number;
    slides : list Slide.t;
    currentSlide : Z;
    lastFocused : option Element;
    startX : Q;
    startY : Q;
    touching : bool;
    frames : list Slide.t;
    preloads : list string;
    dom : Dom }.

(** *** Field updates *)

Definition set_modal (hidden : bool) (aria : string) (d : Dom) : Dom :=
  mkDom hidden (Some aria) (html_overflow d) (body_overflow d)
        (activeElement d) (img_opacity d) (img_transition d) (img_src d)
        (img_alt d) (img_onload d) (title_text d) (content d) (thumbs d)
        (progress d).

Definition set_overflow (v : string) (d : Dom) : Dom :=
  mkDom (modal_hidden d) (modal_aria_hidden d) v v
        (activeElement d) (img_opacity d) (img_transition d) (img_src d)
        (img_alt d) (img_onload d) (title_text d) (content d) (thumbs d)
        (progress d).

Definition set_activeElement (e : option Element) (d : Dom) : Dom :=
  mkDom (modal_hidden d) (modal_aria_hidden d) (html_overflow d)
        (body_overflow d) e (img_opacity d) (img_transition d) (img_src d)
        (img_alt d) (img_onload d) (title_text d) (content d) (thumbs d)
        (progress d).

Definition set_img_style (opacity transition : string) (d : Dom) : Dom :=
  mkDom (modal_hidden d) (modal_aria_hidden d) (html_overflow d)
        (body_overflow d) (activeElement d) opacity transition (img_src d)
        (img_alt d) (img_onload d) (title_text d) (content d) (thumbs d)
        (progress d).

Definition set_img (src alt : string) (listeners : nat) (d : Dom) : Dom :=
  mkDom (modal_hidden d) (modal_aria_hidden d) (html_overflow d)
        (body_overflow d) (activeElement d) (img_opacity d)
        (img_transition d) src alt listeners (title_text d) (content d)
        (thumbs d) (progress d).

Definition set_caption (title : string) (c : Content) (d : Dom) : Dom :=
  mkDom (modal_hidden d) (modal_aria_hidden d) (html_overflow d)
        (body_overflow d) (activeElement d) (img_opacity d)
        (img_transition d) (img_src d) (img_alt d) (img_onload d) title c
        (thumbs d) (progress d).

Definition set_thumbs (t : list Thumb) (d : Dom) : Dom :=
  mkDom (modal_hidden d) (modal_aria_hidden d) (html_overflow d)
        (body_overflow d) (activeElement d) (img_opacity d)
        (img_transition d) (img_src d) (img_alt d) (img_onload d)
        (title_text d) (content d) t (progress d).

Definition set_progress (p : option string) (d : Dom) : Dom :=
  mkDom (modal_hidden d) (modal_aria_hidden d) (html_overflow d)
        (body_overflow d) (activeElement d) (img_opacity d)
        (img_transition d) (img_src d) (img_alt d) (img_onload d)
        (title_text d) (content d) (thumbs d) p.

Definition with_dom (f : Dom -> Dom) (st : State) : State :=
  mkState (projects st) (currentProject st) (slides st) (currentSlide st)
          (lastFocused st) (startX st) (startY st) (touching st)
          (frames st) (preloads st) (f (dom st)).

Definition set_currentProject (n : number) (st : State) : State :=
  mkState (projects st) n (slides st) (currentSlide st)
          (lastFocused st) (startX st) (startY st) (touching st)
          (frames st) (preloads st) (dom st).

Definition set_slides (l : list Slide.t) (st : State) : State :=
  mkState (projects st) (currentProject st) l (currentSlide st)
          (lastFocused st) (startX st) (startY st) (touching st)
          (frames st) (preloads st) (dom st).

Definition set_currentSlide (i : Z) (st : State) : State :=
  mkState (projects st) (currentProject st) (slides st) i
          (lastFocused st) (startX st) (startY st) (touching st)
          (frames st) (preloads st) (dom st).

Definition set_lastFocused (e : option Element) (st : State) : State :=
  mkState (projects st) (currentProject st) (slides st) (currentSlide st)
          e (startX st) (startY st) (touching st)
          (frames st) (preloads st) (dom st).

Definition set_touch (x y : Q) (t : bool) (st : State) : State :=
  mkState (projects st) (currentProject st) (slides st) (currentSlide st)
          (lastFocused st) x y t (frames st) (preloads st) (dom st).

Definition set_frames (f : list Slide.t) (st : State) : State :=
  mkState (projects st) (currentProject st) (slides st) (currentSlide st)
          (lastFocused st) (startX st) (startY st) (touching st)
          f (preloads st) (dom st).

Definition set_preloads (l : list string) (st : State) : State :=
  mkState (projects st) (currentProject st) (slides st) (currentSlide st)
          (lastFocused st) (startX st) (startY st) (touching st)
          (frames st) l (dom st).

(** ** Helpers of the closure (source lines 67-97) *)

(** [lockScroll] *)
Definition lockScroll (on : bool) (st : State) : State :=
  with_dom (set_overflow (if on then "hidden" else "")) st.

(** One step of [idxs.forEach] in [preloadNeighbors]:
    [if (s?.src) { new Image().src = s.src }]. *)
Definition preload_one (st : State) (k : Z) : State :=
  match item (slides st) k with
  | Some s =>
      if String.eqb (Slide.src s) "" then st
      else set_preloads (preloads st ++ [Slide.src s]) st
  | None => st
  end.

(** [preloadNeighbors] *)
Definition preloadNeighbors (i : Z) (st : State) : State :=
  let idxs := [clamp (i - 1) (len (slides st)); clamp (i + 1) (len (slides st))] in
  fold_left preload_one idxs st.

(** The text [updateProgress] writes. *)
Definition progress_label (current total : Z) : string :=
  if 1 <? total then toString (current + 1) ++ " / " ++ toString total
  else "".

(** [updateProgress] *)
Definition updateProgress (st : State) : State :=
  match progress (dom st) with
  | None => st
  | Some _ =>
      with_dom (set_progress
                  (Some (progress_label (currentSlide st) (len (slides st))))) st
  end.

(** The buttons [slides.forEach((s, i) => ...)] appends, [i] counted
    from [from]. *)
Fixpoint thumbs_from (current from : Z) (l : list Slide.t) : list Thumb :=
  match l with
  | [] => []
  | s :: r =>
      mkThumb ("Go to slide " ++ toString (from + 1))
              (Slide.src s)
              (str_or (Slide.alt s) ("Slide " ++ toString (from + 1)))
              (from =? current)
              from
      :: thumbs_from current (from + 1) r
  end.

(** [renderThumbs] *)
Definition renderThumbs (st : State) : State :=
  with_dom (set_thumbs (thumbs_from (currentSlide st) 0 (slides st))) st.

(** ** Navigation (source lines 127-180) *)

Inductive exn : Type :=
| TypeError.

Inductive completion : Type :=
| Normal
| Throw (e : exn).

(** The callback [showSlide] hands to [requestAnimationFrame], run for the
    slide [s] it closed over. *)
Definition render_frame (s : Slide.t) (st : State) : State :=
  let p := item_number (projects st) (currentProject st) in
  let p_alt := match p with Some p => Project.alt p | None => "" end in
  let title :=
    str_or p_alt
           (str_or (Slide.alt s) ("Image " ++ toString (currentSlide st + 1))) in
  let body :=
    if hasHTML (Slide.detail s) then InnerHTML (nullish (Slide.detail s) "")
    else TextContent (str_or (nullish (Slide.detail s) "") "") in
  with_dom (fun d =>
              set_caption title body
                (set_img (Slide.src s) (str_or (Slide.alt s) "")
                         (S (img_onload d)) d)) st.

(** [showSlide] *)
Definition showSlide (index : Z) (st : State) : State :=
  let safe := clamp index (len (slides st)) in
  match item (slides st) safe with
  | None => st
  | Some s =>
      let st := set_currentSlide safe st in
      let st := with_dom (fun d => set_img_style "0" (img_transition d) d) st in
      let st := set_frames (frames st ++ [s]) st in
      let st := renderThumbs st in
      let st := updateProgress st in
      preloadNeighbors (currentSlide st) st
  end.

(** [openProject].  [buildSlides(projects[currentProject])] reads [p.src]
    of [undefined] when the index names no project. *)
Definition openProject (projectIndex : number) (st : State) : completion * State :=
  let st := set_currentProject projectIndex st in
  match item_number (projects st) (currentProject st) with
  | None => (Throw TypeError, st)
  | Some p =>
      let st := set_slides (buildSlides p) st in
      let st := set_currentSlide 0 st in
      let st := with_dom (set_modal false "false") st in
      let st := lockScroll true st in
      let st := set_lastFocused (activeElement (dom st)) st in
      let st := with_dom (set_activeElement (Some CloseBtn)) st in
      (Normal, showSlide 0 st)
  end.

(** [closeModal] *)
Definition closeModal (st : State) : State :=
  let st := with_dom (set_modal true "true") st in
  let st := lockScroll false st in
  match lastFocused st with
  | Some e => with_dom (set_activeElement (Some e)) st
  | None => st
  end.

Definition next (st : State) : State := showSlide (currentSlide st + 1) st.
Definition prev (st : State) : State := showSlide (currentSlide st - 1) st.

(** ** Input router (source lines 183-229) *)

(** The click listener of an opener whose [data-index] attribute reads
    [raw] ([None] when the attribute is absent). *)
Definition opener_click (raw : option string) (st : State) : completion * State :=
  openProject (Number_or_0 raw) st.

(** The [keydown] listener. *)
Definition keydown (key : string) (st : State) : State :=
  if modal_hidden (dom st) then st
  else
    let st := if String.eqb key "Escape" then closeModal st else st in
    let st := if String.eqb key "ArrowRight" then next st else st in
    if String.eqb key "ArrowLeft" then prev st else st.

(** The [touchstart] listener. *)
Definition touchstart (x y : Q) (st : State) : State :=
  set_touch x y true st.

(** [a < b] on touch coordinates. *)
Definition Qltb (a b : Q) : bool := negb (Qle_bool b a).

(** What a swipe asks for. *)
Inductive Nav : Type :=
| GoNext
| GoPrev.

(** The test of the [touchend] listener on the two displacements. *)
Definition swipe (dx dy : Q) : option Nav :=
  if Qltb 40 (Qabs dx) && Qltb (Qabs dy) (Qabs dx) then
    Some (if Qltb dx 0 then GoNext else GoPrev)
  else None.

Definition navigate (n : option Nav) (st : State) : State :=
  match n with
  | Some GoNext => next st
  | Some GoPrev => prev st
  | None => st
  end.

(** The [touchend] listener. *)
Definition touchend (x y : Q) (st : State) : State :=
  if touching st then
    let st := set_touch (startX st) (startY st) false st in
    let dx := double_sub x (startX st) in
    let dy := double_sub y (startY st) in
    navigate (swipe dx dy) st
  else st.

(** The listener [renderThumbs] attached to the [n]-th button of the
    strip as it is now. *)
Definition thumb_click (n : nat) (st : State) : State :=
  match nth_error (thumbs (dom st)) n with
  | Some t => showSlide (goes_to t) st
  | None => st
  end.

(** The browser runs the oldest pending animation-frame callback. *)
Definition animation_frame (st : State) : State :=
  match frames st with
  | [] => st
  | s :: rest => render_frame s (set_frames rest st)
  end.

(** The image fires [load]: every registered [onLoad] fades the image in
    and removes itself. *)
Definition image_load (st : State) : State :=
  match img_onload (dom st) with
  | O => st
  | S _ =>
      with_dom (fun d =>
                  set_img (img_src d) (img_alt d) 0
                          (set_img_style "1" "opacity 150ms ease-out" d)) st
  end.

(** ** The instance as a transition system *)

Inductive Event : Type :=
| ClickOpener (raw : option string)
| ClickOverlay
| ClickClose
| ClickNext
| ClickPrev
| ClickImage
| ClickThumb (n : nat)
| KeyDown (key : string)
| TouchStart (x y : Q)
| TouchEnd (x y : Q)
| AnimationFrame
| ImageLoad
| FocusMoved (e : option Element)    (* the user moves the focus *)
| OtherLockScroll (on : bool).       (* another instance locks or unlocks the scroll *)

(** The operations of the navigation state machine, called directly. *)
Inductive Op : Type :=
| OpenProject (k : number)
| ShowSlide (i : Z)
| Next
| Prev
| CloseModal.

Definition handle (e : Event) (st : State) : completion * State :=
  match e with
  | ClickOpener raw => opener_click raw st
  | ClickOverlay | ClickClose => (Normal, closeModal st)
  | ClickNext | ClickImage => (Normal, next st)
  | ClickPrev => (Normal, prev st)
  | ClickThumb n => (Normal, thumb_click n st)
  | KeyDown key => (Normal, keydown key st)
  | TouchStart x y => (Normal, touchstart x y st)
  | TouchEnd x y => (Normal, touchend x y st)
  | AnimationFrame => (Normal, animation_frame st)
  | ImageLoad => (Normal, image_load st)
  | FocusMoved e => (Normal, with_dom (set_activeElement e) st)
  | OtherLockScroll on => (Normal, lockScroll on st)
  end.

Definition call (o : Op) (st : State) : completion * State :=
  match o with
  | OpenProject k => openProject k st
  | ShowSlide i => (Normal, showSlide i st)
  | Next => (Normal, next st)
  | Prev => (Normal, prev st)
  | CloseModal => (Normal, closeModal st)
  end.

(** The state [initCarousel] starts from (source lines 55-64), for a
    parsed payload and the document as the host page ships it. *)
Definition initState (ps : list Project.t) (d : Dom) : State :=
  mkState ps (Int 0) [] 0 None 0%Q 0%Q false [] [] d.

(** States the instance can be in: after any sequence of events and of
    direct calls, whether they complete or throw. *)
Inductive reachable (ps : list Project.t) (d : Dom) : State -> Prop :=
| reach_init : reachable ps d (initState ps d)
| reach_event e st : reachable ps d st -> reachable ps d (snd (handle e st))
| reach_call o st : reachable ps d st -> reachable ps d (snd (call o st)).

(** [currentSlide] names a slide, or there is none and it is [0]. *)
Definition nav_ok (st : State) : Prop :=
  0 <= currentSlide st < Z.max 1 (len (slides st)).

(** A project index that names a project. *)
Definition valid_project (st : State) (k : number) : Prop :=
  exists z, k = Int z /\ 0 <= z < len (projects st).

(** ** States met in the proofs *)

(** The state after a [showSlide] that found its slide. *)
Definition shown (safe : Z) (s : Slide.t) (l : list string) (st : State) : State :=
  mkState (projects st) (currentProject st) (slides st) safe
          (lastFocused st) (startX st) (startY st) (touching st)
          (frames st ++ [s]) l
          (set_progress
             (match progress (dom st) with
              | Some _ => Some (progress_label safe (len (slides st)))
              | None => None
              end)
             (set_thumbs (thumbs_from safe 0 (slides st))
                (set_img_style "0" (img_transition (dom st)) (dom st)))).

(** The state in which [openProject] calls [showSlide(0)]. *)
Definition opened (p : Project.t) (k : number) (st : State) : State :=
  mkState (projects st) k (buildSlides p) 0
          (activeElement (dom st)) (startX st) (startY st) (touching st)
          (frames st) (preloads st)
          (set_activeElement (Some CloseBtn)
             (set_overflow "hidden" (set_modal false "false" (dom st)))).

(** ** The invariant of the instance *)

(** While there are slides, a progress element shows the position that
    [currentSlide] names. *)
Definition progress_ok (st : State) : Prop :=
  slides st = [] \/
  match progress (dom st) with
  | Some t => t = progress_label (currentSlide st) (len (slides st))
  | None => True
  end.

Definition inv (st : State) : Prop := nav_ok st /\ progress_ok st.

(** The part of the state the invariant reads. *)
Definition same_view (st st' : State) : Prop :=
  slides st' = slides st /\
  currentSlide st' = currentSlide st /\
  progress (dom st') = progress (dom st).

(** ** Sample data *)

Definition demo_project : Project.t :=
  Project.mk "a.jpg" "Alpha" "<b>Bold</b>"
             (Some [SubImg.mk "b.jpg" None None;
                    SubImg.mk "c.jpg" (Some "Gamma") (Some "Plain text")]).

Definition bare_project : Project.t :=
  Project.mk "z.jpg" "Zeta" "" None.

(** A host page whose modal starts hidden and whose progress element is
    empty. *)
Definition demo_dom : Dom :=
  mkDom true (Some "true") "" "" (Some (Elem 0)) "1" "" "" "" 0 ""
        (TextContent "") [] (Some "").

(** A host page that ships a placeholder in its progress element. *)
Definition placeholder_dom : Dom :=
  mkDom true (Some "true") "" "" (Some (Elem 0)) "1" "" "" "" 0 ""
        (TextContent "") [] (Some "0 / 0").

Definition demo_opened : State :=
  snd (handle (ClickOpener (Some "0")) (initState [demo_project] demo_dom)).

(** ** Further predicates on states *)

(** The strip shows the slides of the state, with the current one marked. *)
Definition thumbs_ok (st : State) : Prop :=
  slides st = [] \/
  thumbs (dom st) = thumbs_from (currentSlide st) 0 (slides st).

(** The callback that will run last, if any is pending. *)
Definition last_frame (l : list Slide.t) : option Slide.t :=
  match rev l with
  | s :: _ => Some s
  | [] => None
  end.

(** The image and the detail panel display the slide [s]. *)
Definition displays (s : Slide.t) (d : Dom) : Prop :=
  img_src d = Slide.src s /\
  img_alt d = Slide.alt s /\
  content d =
    (if hasHTML (Slide.detail s) then InnerHTML (nullish (Slide.detail s) "")
     else TextContent (nullish (Slide.detail s) "")).

(** The callback that runs last is for the current slide; once none is
    pending, the current slide is what is displayed. *)
Definition frames_ok (st : State) : Prop :=
  match last_frame (frames st) with
  | Some s => item (slides st) (currentSlide st) = Some s
  | None =>
      slides st = [] \/
      exists s, item (slides st) (currentSlide st) = Some s /\ displays s (dom st)
  end.

(** A visible modal has slides and is announced as visible. *)
Definition modal_ok (st : State) : Prop :=
  modal_hidden (dom st) = false ->
  slides st <> [] /\
  modal_aria_hidden (dom st) = Some "false".

(** The sources [preloadNeighbors] requests for the given neighbours. *)
Definition truthy_srcs (l : list Slide.t) : list string :=
  filter (fun u => negb (String.eqb u "")) (map Slide.src l).

(** The other direction. *)
Definition opposite (n : option Nav) : option Nav :=
  match n with
  | Some GoNext => Some GoPrev
  | Some GoPrev => Some GoNext
  | None => None
  end.

(** The characters of a decimal numeral, most significant first. *)
Fixpoint uint_digits (d : Decimal.uint) : list ascii :=
  match d with
  | Decimal.Nil => []
  | Decimal.D0 r => "0"%char :: uint_digits r
  | Decimal.D1 r => "1"%char :: uint_digits r
  | Decimal.D2 r => "2"%char :: uint_digits r
  | Decimal.D3 r => "3"%char :: uint_digits r
  | Decimal.D4 r => "4"%char :: uint_digits r
  | Decimal.D5 r => "5"%char :: uint_digits r
  | Decimal.D6 r => "6"%char :: uint_digits r
  | Decimal.D7 r => "7"%char :: uint_digits r
  | Decimal.D8 r => "8"%char :: uint_digits r
  | Decimal.D9 r => "9"%char :: uint_digits r
  end.

(** The sample project opened and stepped once. *)
Definition demo_stepped : State := snd (handle ClickNext demo_opened).

(** The sample project opened, rendered and loaded. *)
Definition demo_settled : State :=
  snd (handle ImageLoad (snd (handle AnimationFrame demo_opened))).

(** * Properties *)

(** ** Arithmetic of [clamp] *)

Lemma clamp_empty (i : Z) : clamp i 0 = 0.
Proof. reflexivity. Qed.

Lemma clamp_mod (i n : Z) : 0 < n -> - n <= i -> clamp i n = i mod n.
Proof.
  intros Hn Hi. unfold clamp.
  destruct (Z.eqb_spec n 0) as [E | _]; [lia |].
  rewrite Z.rem_mod_nonneg by lia.
  replace (i + n) with (i + 1 * n) by ring.
  apply Z_mod_plus_full.
Qed.

Lemma clamp_range (i n : Z) : 0 < n -> - n <= i -> 0 <= clamp i n < n.
Proof.
  intros Hn Hi. rewrite clamp_mod by assumption.
  apply Z.mod_pos_bound; assumption.
Qed.

Lemma clamp_small (i n : Z) : 0 <= i < n -> clamp i n = i.
Proof.
  intros H. rewrite clamp_mod by lia. apply Z.mod_small; assumption.
Qed.

(** ** Array access *)

Lemma item_Some_range {A : Type} (l : list A) (i : Z) (a : A) :
  item l i = Some a -> 0 <= i < len l.
Proof.
  unfold item, len. destruct (Z.ltb_spec i 0) as [H | H]; [discriminate |].
  intros E. assert (Hn : nth_error l (Z.to_nat i) <> None) by congruence.
  apply nth_error_Some in Hn. lia.
Qed.

Lemma item_in_range {A : Type} (l : list A) (i : Z) :
  0 <= i < len l -> exists a, item l i = Some a.
Proof.
  unfold item, len. intros H.
  destruct (Z.ltb_spec i 0) as [H0 | _]; [lia |].
  destruct (nth_error l (Z.to_nat i)) as [a |] eqn:E; [now exists a |].
  apply nth_error_None in E. lia.
Qed.

Lemma item_nil {A : Type} (i : Z) : item (@nil A) i = None.
Proof.
  unfold item. destruct (i <? 0); [reflexivity |].
  destruct (Z.to_nat i); reflexivity.
Qed.

Lemma len_nonneg {A : Type} (l : list A) : 0 <= len l.
Proof. unfold len. lia. Qed.

Lemma len_zero_nil {A : Type} (l : list A) : len l = 0 -> l = [].
Proof. destruct l; [reflexivity | unfold len; simpl; lia]. Qed.

Lemma len_pos {A : Type} (l : list A) : l <> [] -> 0 < len l.
Proof. destruct l; [congruence | unfold len; simpl; lia]. Qed.

(** ** What [showSlide] touches *)

Lemma preload_one_shape (st : State) (k : Z) :
  exists l, preload_one st k = set_preloads l st.
Proof.
  unfold preload_one.
  destruct (item (slides st) k) as [s |].
  - destruct (String.eqb (Slide.src s) "").
    + exists (preloads st). destruct st; reflexivity.
    + eexists; reflexivity.
  - exists (preloads st). destruct st; reflexivity.
Qed.

Lemma preloadNeighbors_shape (i : Z) (st : State) :
  exists l, preloadNeighbors i st = set_preloads l st.
Proof.
  unfold preloadNeighbors. simpl.
  destruct (preload_one_shape st (clamp (i - 1) (len (slides st)))) as [l1 E1].
  rewrite E1.
  destruct (preload_one_shape (set_preloads l1 st)
              (clamp (i + 1) (len (slides st)))) as [l2 E2].
  rewrite E2. exists l2. reflexivity.
Qed.

Lemma showSlide_found (i : Z) (st : State) (s : Slide.t) :
  item (slides st) (clamp i (len (slides st))) = Some s ->
  exists l, showSlide i st = shown (clamp i (len (slides st))) s l st.
Proof.
  intros E. unfold showSlide. rewrite E.
  match goal with
  | |- exists l, preloadNeighbors ?j ?t = _ =>
      destruct (preloadNeighbors_shape j t) as [l El]; rewrite El; exists l
  end.
  unfold updateProgress, renderThumbs, shown.
  destruct st as [ps cp sl cs lf sx sy tg fr pl d]; destruct d; simpl.
  match goal with
  | |- context [match ?p with Some _ => _ | None => _ end] => destruct p
  end; reflexivity.
Qed.

Lemma showSlide_missing (i : Z) (st : State) :
  item (slides st) (clamp i (len (slides st))) = None -> showSlide i st = st.
Proof. intros E. unfold showSlide. rewrite E. reflexivity. Qed.

Lemma showSlide_cases (i : Z) (st : State) :
  showSlide i st = st \/
  exists s l, item (slides st) (clamp i (len (slides st))) = Some s /\
              showSlide i st = shown (clamp i (len (slides st))) s l st.
Proof.
  destruct (item (slides st) (clamp i (len (slides st)))) as [s |] eqn:E.
  - right. destruct (showSlide_found i st E) as [l El]. now exists s, l.
  - left. now apply showSlide_missing.
Qed.

(** ** The invariant holds in every reachable state *)

Lemma inv_same_view (st st' : State) : same_view st st' -> inv st -> inv st'.
Proof.
  intros (Hs & Hc & Hp). unfold inv, nav_ok, progress_ok.
  rewrite Hs, Hc, Hp. trivial.
Qed.

Lemma inv_shown (safe : Z) (s : Slide.t) (l : list string) (st : State) :
  0 <= safe < len (slides st) -> inv (shown safe s l st).
Proof.
  intros H. split.
  - unfold nav_ok. simpl. lia.
  - right. simpl. destruct (progress (dom st)); simpl; trivial.
Qed.

Lemma inv_showSlide (i : Z) (st : State) : inv st -> inv (showSlide i st).
Proof.
  intros H. destruct (showSlide_cases i st) as [E | (s & l & Hs & E)];
    rewrite E; [assumption |].
  apply inv_shown. eapply item_Some_range; eassumption.
Qed.

Lemma inv_closeModal (st : State) : inv st -> inv (closeModal st).
Proof.
  apply inv_same_view. unfold closeModal, same_view.
  destruct (lastFocused _); simpl; auto.
Qed.

Lemma buildSlides_first (p : Project.t) :
  item (buildSlides p) 0 =
  Some (Slide.mk (Project.src p) (Project.alt p) (Some (Project.detail p))).
Proof. reflexivity. Qed.

Lemma buildSlides_len (p : Project.t) :
  len (buildSlides p) = 1 + len (nullish (Project.gallery p) []).
Proof.
  unfold len, buildSlides. simpl List.length. rewrite length_map. lia.
Qed.

Lemma openProject_found (k : number) (st : State) (p : Project.t) :
  item_number (projects st) k = Some p ->
  exists l,
    openProject k st =
    (Normal,
     shown 0 (Slide.mk (Project.src p) (Project.alt p) (Some (Project.detail p)))
           l (opened p k st)).
Proof.
  intros E. unfold openProject. simpl. rewrite E.
  match goal with
  | |- exists l, (Normal, showSlide 0 ?t) = _ =>
      assert (Hi : item (slides t) (clamp 0 (len (slides t))) =
                   Some (Slide.mk (Project.src p) (Project.alt p)
                                  (Some (Project.detail p))));
      [| destruct (showSlide_found 0 t Hi) as [l El]; exists l; rewrite El ]
  end.
  - simpl slides. rewrite clamp_small; [apply buildSlides_first |].
    rewrite buildSlides_len. pose proof (len_nonneg (nullish (Project.gallery p) [])).
    lia.
  - simpl slides. rewrite clamp_small.
    + reflexivity.
    + rewrite buildSlides_len.
      pose proof (len_nonneg (nullish (Project.gallery p) [])). lia.
Qed.

Lemma openProject_missing (k : number) (st : State) :
  item_number (projects st) k = None ->
  openProject k st = (Throw TypeError, set_currentProject k st).
Proof. intros E. unfold openProject. simpl. rewrite E. reflexivity. Qed.

Lemma inv_openProject (k : number) (st : State) :
  inv st -> inv (snd (openProject k st)).
Proof.
  intros H. destruct (item_number (projects st) k) as [p |] eqn:E.
  - destruct (openProject_found k st E) as [l El]. rewrite El. simpl snd.
    apply inv_shown. simpl slides. rewrite buildSlides_len.
    pose proof (len_nonneg (nullish (Project.gallery p) [])). lia.
  - rewrite (openProject_missing k st E). simpl.
    revert H. apply inv_same_view. unfold same_view. simpl. auto.
Qed.

Lemma inv_next (st : State) : inv st -> inv (next st).
Proof. apply inv_showSlide. Qed.

Lemma inv_prev (st : State) : inv st -> inv (prev st).
Proof. apply inv_showSlide. Qed.

Lemma inv_keydown (key : string) (st : State) : inv st -> inv (keydown key st).
Proof.
  intros H. unfold keydown. destruct (modal_hidden (dom st)); [assumption |].
  destruct (String.eqb key "ArrowLeft"); [apply inv_prev |];
    (destruct (String.eqb key "ArrowRight"); [apply inv_next |]);
    (destruct (String.eqb key "Escape"); [apply inv_closeModal |]);
    assumption.
Qed.

Lemma inv_touchend (x y : Q) (st : State) : inv st -> inv (touchend x y st).
Proof.
  intros H. unfold touchend. destruct (touching st); [| assumption].
  assert (H' : inv (set_touch (startX st) (startY st) false st)).
  { revert H. apply inv_same_view. unfold same_view. simpl. auto. }
  unfold navigate. destruct (swipe _ _) as [[|] |];
    [apply inv_next | apply inv_prev |]; assumption.
Qed.

Lemma inv_handle (e : Event) (st : State) : inv st -> inv (snd (handle e st)).
Proof.
  intros H. destruct e; simpl.
  - apply inv_openProject, H.
  - apply inv_closeModal, H.
  - apply inv_closeModal, H.
  - apply inv_next, H.
  - apply inv_prev, H.
  - apply inv_next, H.
  - unfold thumb_click. destruct (nth_error _ _); [apply inv_showSlide |]; exact H.
  - apply inv_keydown, H.
  - revert H. apply inv_same_view. unfold same_view. simpl. auto.
  - apply inv_touchend, H.
  - unfold animation_frame. destruct (frames st) as [| s r] eqn:E; [exact H |].
    revert H. apply inv_same_view. unfold same_view. simpl. auto.
  - unfold image_load. destruct (img_onload (dom st)); [exact H |].
    revert H. apply inv_same_view. unfold same_view. simpl. auto.
  - revert H. apply inv_same_view. unfold same_view. simpl. auto.
  - revert H. apply inv_same_view. unfold same_view. simpl. auto.
Qed.

Lemma inv_call (o : Op) (st : State) : inv st -> inv (snd (call o st)).
Proof.
  intros H. destruct o; simpl.
  - apply inv_openProject, H.
  - apply inv_showSlide, H.
  - apply inv_next, H.
  - apply inv_prev, H.
  - apply inv_closeModal, H.
Qed.

Lemma inv_init (ps : list Project.t) (d : Dom) : inv (initState ps d).
Proof.
  split.
  - unfold nav_ok. simpl. lia.
  - left. reflexivity.
Qed.

Lemma reachable_inv (ps : list Project.t) (d : Dom) (st : State) :
  reachable ps d st -> inv st.
Proof.
  induction 1 as [| e st _ IH | o st _ IH].
  - apply inv_init.
  - apply inv_handle, IH.
  - apply inv_call, IH.
Qed.

Lemma nav_ok_nonempty (st : State) :
  nav_ok st -> slides st <> [] -> 0 <= currentSlide st < len (slides st).
Proof.
  unfold nav_ok. intros H Hne. pose proof (len_pos Hne). lia.
Qed.

(** ** The wrap function *)

Lemma spec_wrap_mod (i n : Z) : 0 < n -> spec_wrap i n = i mod n.
Proof.
  intros Hn. unfold spec_wrap.
  destruct (Z.eqb_spec n 0) as [E | _]; [lia |].
  pose proof (Z.rem_bound_abs i n ltac:(lia)) as Hb.
  rewrite Z.rem_mod_nonneg by lia.
  pose proof (Z.quot_rem' i n) as Hq.
  replace (Z.rem i n + n) with (i + (1 - Z.quot i n) * n) by lia.
  apply Z_mod_plus_full.
Qed.

(** C1 (as amended): for every slide count [n] with [0 < n] and every
    integer [i >= -n], both safe integers with a safe sum [i + n] (so
    that the addition of the code is exact), [clamp i n] lies in
    [0, n), equals the wrap-around [((i % n) + n) % n] of the
    specification, and does not change when a multiple of [n] is added to
    [i], as long as the sum stays safe. *)
Theorem clamp_wraps_from_minus_len
  (i n : Z) (Hn : 0 < n <= max_safe) (Hi : - n <= i)
  (Hs : i + n <= max_safe) :
  0 <= clamp i n < n /\
  clamp i n = spec_wrap i n /\
  forall k, 0 <= k -> i + k * n + n <= max_safe ->
    clamp (i + k * n) n = clamp i n.
Proof.
  destruct Hn as [Hn _].
  split; [now apply clamp_range |]. split.
  - rewrite clamp_mod, spec_wrap_mod by assumption. reflexivity.
  - intros k Hk _. rewrite !clamp_mod by nia. apply Z_mod_plus_full.
Qed.

Lemma clamp_wraps_from_minus_len_witness :
  0 <= clamp (-1) 3 < 3 /\
  clamp (-1) 3 = spec_wrap (-1) 3 /\
  forall k, 0 <= k -> -1 + k * 3 + 3 <= max_safe ->
    clamp (-1 + k * 3) 3 = clamp (-1) 3.
Proof.
  apply (@clamp_wraps_from_minus_len (-1) 3).
  - vm_compute. split; [reflexivity | discriminate].
  - vm_compute. discriminate.
  - vm_compute. discriminate.
Defined.

(** C1 fails as stated: two turns below zero [clamp] returns a negative
    number, and adding one period changes the result. *)
Lemma clamp_below_minus_len :
  ~ (0 <= clamp (-4) 3 < 3) /\ clamp (-4 + 3) 3 <> clamp (-4) 3.
Proof. split; vm_compute; [intros [H _]; apply H; reflexivity | discriminate]. Qed.

(** ** The empty slide list *)

(** C3: with no slides, [wrap(i, 0)] is [0] and [showSlide(i)] returns
    without raising and without changing anything: the whole state, hence
    [currentSlide] and all rendered output, is as before. *)
Theorem showSlide_empty_noop (i : Z) (st : State) (He : slides st = []) :
  clamp i 0 = 0 /\
  clamp i (len (slides st)) = 0 /\
  showSlide i st = st /\
  call (ShowSlide i) st = (Normal, st).
Proof.
  assert (E : showSlide i st = st).
  { apply showSlide_missing. rewrite He. apply item_nil. }
  repeat split; try assumption.
  - rewrite He. reflexivity.
  - simpl. rewrite E. reflexivity.
Qed.

Lemma showSlide_empty_noop_witness :
  clamp (-7) 0 = 0 /\
  clamp (-7) (len (slides (initState [demo_project] demo_dom))) = 0 /\
  showSlide (-7) (initState [demo_project] demo_dom) =
    initState [demo_project] demo_dom /\
  call (ShowSlide (-7)) (initState [demo_project] demo_dom) =
    (Normal, initState [demo_project] demo_dom).
Proof.
  apply (@showSlide_empty_noop (-7) (initState [demo_project] demo_dom)).
  reflexivity.
Defined.

(** ** [currentSlide] stays a valid index *)

(** C4: in every state the instance can reach, after [openProject],
    [showSlide] with any integer, [next] or [prev] (and [closeModal]),
    a non-empty slide list has [currentSlide] in [0, slides.length). *)
Theorem currentSlide_valid_after_op
  (ps : list Project.t) (d : Dom) (st : State) (o : Op)
  (Hr : reachable ps d st) :
  slides (snd (call o st)) <> [] ->
  0 <= currentSlide (snd (call o st)) < len (slides (snd (call o st))).
Proof.
  apply nav_ok_nonempty.
  apply (inv_call o (reachable_inv Hr)).
Qed.

Lemma currentSlide_valid_after_op_witness :
  slides (snd (call Prev demo_opened)) <> [] /\
  0 <= currentSlide (snd (call Prev demo_opened))
    < len (slides (snd (call Prev demo_opened))).
Proof.
  assert (Hne : slides (snd (call Prev demo_opened)) <> [])
    by (vm_compute; discriminate).
  split; [exact Hne |].
  exact (@currentSlide_valid_after_op [demo_project] demo_dom demo_opened Prev
           (reach_event (ClickOpener (Some "0"))
              (reach_init [demo_project] demo_dom)) Hne).
Defined.

(** ** Stepping forwards and backwards *)

Lemma showSlide_wrap (i : Z) (st : State) :
  slides st <> [] -> - len (slides st) <= i ->
  currentSlide (showSlide i st) = i mod len (slides st) /\
  slides (showSlide i st) = slides st.
Proof.
  intros Hne Hi. pose proof (len_pos Hne) as Hn.
  destruct (item_in_range (slides st) (clamp_range Hn Hi)) as [s Hs].
  destruct (showSlide_found i st Hs) as [l El]. rewrite El. simpl.
  split; [now apply clamp_mod | reflexivity].
Qed.

Lemma next_wrap (st : State) :
  slides st <> [] -> 0 <= currentSlide st < len (slides st) ->
  currentSlide (next st) = (currentSlide st + 1) mod len (slides st) /\
  slides (next st) = slides st.
Proof. intros Hne Hc. apply showSlide_wrap; [assumption | lia]. Qed.

Lemma prev_wrap (st : State) :
  slides st <> [] -> 0 <= currentSlide st < len (slides st) ->
  currentSlide (prev st) = (currentSlide st - 1) mod len (slides st) /\
  slides (prev st) = slides st.
Proof. intros Hne Hc. apply showSlide_wrap; [assumption | lia]. Qed.

Lemma next_prev_nonempty (st : State) :
  slides st <> [] -> 0 <= currentSlide st < len (slides st) ->
  currentSlide (prev (next st)) = currentSlide st /\
  currentSlide (next (prev st)) = currentSlide st.
Proof.
  intros Hne Hc. pose proof (len_pos Hne) as Hn.
  destruct (next_wrap st Hne Hc) as [Hnc Hns].
  destruct (prev_wrap st Hne Hc) as [Hpc Hps].
  assert (Hn' : slides (next st) <> []) by (rewrite Hns; assumption).
  assert (Hp' : slides (prev st) <> []) by (rewrite Hps; assumption).
  assert (Hnr : 0 <= currentSlide (next st) < len (slides (next st))).
  { rewrite Hnc, Hns. apply Z.mod_pos_bound; assumption. }
  assert (Hpr : 0 <= currentSlide (prev st) < len (slides (prev st))).
  { rewrite Hpc, Hps. apply Z.mod_pos_bound; assumption. }
  split.
  - rewrite (proj1 (prev_wrap (next st) Hn' Hnr)), Hnc, Hns.
    rewrite Zminus_mod_idemp_l.
    replace (currentSlide st + 1 - 1) with (currentSlide st) by ring.
    apply Z.mod_small; assumption.
  - rewrite (proj1 (next_wrap (prev st) Hp' Hpr)), Hpc, Hps.
    rewrite Zplus_mod_idemp_l.
    replace (currentSlide st - 1 + 1) with (currentSlide st) by ring.
    apply Z.mod_small; assumption.
Qed.

Lemma nav_empty_noop (st : State) :
  slides st = [] -> next st = st /\ prev st = st.
Proof.
  intros He. unfold next, prev.
  split; apply showSlide_missing; rewrite He; apply item_nil.
Qed.

(** C5: from a state whose [currentSlide] names a slide of a non-empty
    list (or is [0] over the empty list, as the instance starts),
    [next] then [prev] and [prev] then [next] give back the original
    [currentSlide]; with at most one slide both land on index [0] and
    repeating them changes nothing. *)
Theorem next_prev_round_trip (st : State) (Hok : nav_ok st) :
  currentSlide (prev (next st)) = currentSlide st /\
  currentSlide (next (prev st)) = currentSlide st /\
  (len (slides st) <= 1 ->
   currentSlide (next st) = 0 /\ currentSlide (prev st) = 0 /\
   currentSlide (next (next st)) = currentSlide (next st) /\
   currentSlide (prev (prev st)) = currentSlide (prev st)).
Proof.
  destruct (slides st) as [| s0 r] eqn:Es.
  - destruct (nav_empty_noop st Es) as [En Ep].
    rewrite En, Ep, En, Ep.
    unfold nav_ok in Hok. rewrite Es in Hok. unfold len in Hok. simpl in Hok.
    repeat split; try reflexivity; lia.
  - assert (Hne : slides st <> []) by (rewrite Es; discriminate).
    pose proof (nav_ok_nonempty Hok Hne) as Hc.
    destruct (next_prev_nonempty st Hne Hc) as [H1 H2].
    split; [exact H1 |]. split; [exact H2 |].
    rewrite <- Es. intros Hle. pose proof (len_pos Hne) as Hn.
    assert (E1 : len (slides st) = 1) by lia.
    destruct (next_wrap st Hne Hc) as [Hnc Hns].
    destruct (prev_wrap st Hne Hc) as [Hpc Hps].
    rewrite E1, Z.mod_1_r in Hnc, Hpc.
    assert (Hn' : slides (next st) <> []) by (rewrite Hns; assumption).
    assert (Hp' : slides (prev st) <> []) by (rewrite Hps; assumption).
    assert (Hnr : 0 <= currentSlide (next st) < len (slides (next st)))
      by (rewrite Hnc, Hns; lia).
    assert (Hpr : 0 <= currentSlide (prev st) < len (slides (prev st)))
      by (rewrite Hpc, Hps; lia).
    repeat split; try assumption.
    + rewrite (proj1 (next_wrap (next st) Hn' Hnr)), Hns, E1, Z.mod_1_r. now rewrite Hnc.
    + rewrite (proj1 (prev_wrap (prev st) Hp' Hpr)), Hps, E1, Z.mod_1_r. now rewrite Hpc.
Qed.

Lemma next_prev_round_trip_witness :
  currentSlide (prev (next demo_opened)) = currentSlide demo_opened /\
  currentSlide (next (prev demo_opened)) = currentSlide demo_opened /\
  (len (slides demo_opened) <= 1 ->
   currentSlide (next demo_opened) = 0 /\ currentSlide (prev demo_opened) = 0 /\
   currentSlide (next (next demo_opened)) = currentSlide (next demo_opened) /\
   currentSlide (prev (prev demo_opened)) = currentSlide (prev demo_opened)).
Proof.
  apply (@next_prev_round_trip demo_opened).
  unfold nav_ok. vm_compute. split; [discriminate | reflexivity].
Defined.

(** ** The slide builder *)

(** C6: [buildSlides p] is a function of [p] alone; its first element is
    the project's own image, caption and detail, and element [j + 1] is
    gallery entry [j] with its own [alt] and [detail] where it has them
    and the project's otherwise. *)
Theorem buildSlides_first_then_gallery (p : Project.t) :
  nth_error (buildSlides p) 0 =
    Some (Slide.mk (Project.src p) (Project.alt p) (Some (Project.detail p))) /\
  List.length (buildSlides p) =
    S (List.length (match Project.gallery p with Some g => g | None => [] end)) /\
  forall (j : nat) (g : SubImg.t),
    nth_error (match Project.gallery p with Some g => g | None => [] end) j = Some g ->
    nth_error (buildSlides p) (S j) =
      Some (Slide.mk (SubImg.src g)
                     (match SubImg.alt g with
                      | Some a => a
                      | None => Project.alt p
                      end)
                     (Some (match SubImg.detail g with
                            | Some t => t
                            | None => Project.detail p
                            end))).
Proof.
  split; [reflexivity |]. split.
  - unfold buildSlides. simpl. rewrite length_map. reflexivity.
  - intros j g Hg. unfold buildSlides. simpl.
    rewrite nth_error_map. unfold nullish at 3. rewrite Hg. reflexivity.
Qed.

(** ** Opening a project *)

(** C7: for an index [z] that names a project, [openProject(z)] completes
    normally, sets [currentProject] to [z], replaces [slides] by
    [buildSlides(projects[z])] and leaves [currentSlide] at [0]. *)
Theorem openProject_valid_index
  (st : State) (z : Z) (Hz : 0 <= z < len (projects st)) :
  exists p,
    item (projects st) z = Some p /\
    fst (openProject (Int z) st) = Normal /\
    projects (snd (openProject (Int z) st)) = projects st /\
    currentProject (snd (openProject (Int z) st)) = Int z /\
    slides (snd (openProject (Int z) st)) = buildSlides p /\
    currentSlide (snd (openProject (Int z) st)) = 0.
Proof.
  destruct (item_in_range (projects st) Hz) as [p Hp].
  exists p. split; [exact Hp |].
  destruct (@openProject_found (Int z) st p Hp) as [l El].
  rewrite El. simpl. repeat split; reflexivity.
Qed.

Lemma openProject_valid_index_witness :
  exists p,
    item (projects (initState [bare_project; demo_project] demo_dom)) 1 = Some p /\
    fst (openProject (Int 1) (initState [bare_project; demo_project] demo_dom)) = Normal /\
    projects (snd (openProject (Int 1) (initState [bare_project; demo_project] demo_dom)))
      = projects (initState [bare_project; demo_project] demo_dom) /\
    currentProject (snd (openProject (Int 1) (initState [bare_project; demo_project] demo_dom)))
      = Int 1 /\
    slides (snd (openProject (Int 1) (initState [bare_project; demo_project] demo_dom)))
      = buildSlides p /\
    currentSlide (snd (openProject (Int 1) (initState [bare_project; demo_project] demo_dom)))
      = 0.
Proof.
  apply (@openProject_valid_index (initState [bare_project; demo_project] demo_dom) 1).
  vm_compute. split; [discriminate | reflexivity].
Defined.

(** ** The progress indicator *)

Lemma updateProgress_text (st : State) (t0 : string) :
  progress (dom st) = Some t0 ->
  progress (dom (updateProgress st)) =
    Some (progress_label (currentSlide st) (len (slides st))).
Proof. intros E. unfold updateProgress. rewrite E. reflexivity. Qed.

(** C8 (as amended): in a reachable state with a non-empty slide list,
    after [showSlide] with any integer the text of the progress element
    is ["<currentSlide+1> / <slides.length>"] when there is more than one
    slide and the empty string when there is one; over an empty slide
    list [showSlide] leaves the text as it was. *)
Theorem progress_after_showSlide
  (ps : list Project.t) (d : Dom) (st : State) (i : Z)
  (Hr : reachable ps d st) :
  (slides st <> [] ->
   forall t, progress (dom (showSlide i st)) = Some t ->
     t = (if 1 <? len (slides (showSlide i st))
          then toString (currentSlide (showSlide i st) + 1) ++ " / " ++
               toString (len (slides (showSlide i st)))
          else "")) /\
  (slides st = [] ->
   progress (dom (showSlide i st)) = progress (dom st)) /\
  progress_label 1 5 = "2 / 5".
Proof.
  split; [| split; [| reflexivity]].
  - intros Hne t Ht.
    destruct (inv_showSlide i (reachable_inv Hr)) as [_ [He | Hp]].
    + exfalso. destruct (showSlide_cases i st) as [E | (s & l & _ & E)];
        rewrite E in He; simpl in He; contradiction.
    + rewrite Ht in Hp. exact Hp.
  - intros He. rewrite showSlide_missing; [reflexivity |].
    rewrite He. apply item_nil.
Qed.

Lemma progress_after_showSlide_witness :
  (slides demo_opened <> [] ->
   forall t, progress (dom (showSlide 1 demo_opened)) = Some t ->
     t = (if 1 <? len (slides (showSlide 1 demo_opened))
          then toString (currentSlide (showSlide 1 demo_opened) + 1) ++ " / " ++
               toString (len (slides (showSlide 1 demo_opened)))
          else "")) /\
  (slides demo_opened = [] ->
   progress (dom (showSlide 1 demo_opened)) = progress (dom demo_opened)) /\
  progress_label 1 5 = "2 / 5".
Proof.
  exact (@progress_after_showSlide [demo_project] demo_dom demo_opened 1
           (reach_event (ClickOpener (Some "0"))
              (reach_init [demo_project] demo_dom))).
Defined.

(** C8 fails as stated: over an empty slide list [showSlide] returns
    before [updateProgress], so a text the host page shipped in the
    progress element is not cleared. *)
Lemma progress_not_cleared_when_empty :
  len (slides (showSlide 0 (initState [demo_project] placeholder_dom))) <= 1 /\
  progress (dom (showSlide 0 (initState [demo_project] placeholder_dom)))
    = Some "0 / 0" /\
  progress (dom (showSlide 0 (initState [demo_project] placeholder_dom)))
    <> Some "".
Proof. vm_compute. repeat split; discriminate. Qed.

(** ** Swipes *)

Lemma Qltb_lt (a b : Q) : Qltb a b = true <-> (a < b)%Q.
Proof.
  unfold Qltb. rewrite negb_true_iff.
  destruct (Qle_bool b a) eqn:E.
  - apply Qle_bool_iff in E. split; [discriminate |].
    intros H. exfalso. exact (Qlt_not_le _ _ H E).
  - split; [intros _ | reflexivity].
    apply Qnot_le_lt. intros H. apply Qle_bool_iff in H. congruence.
Qed.

Lemma Qabs_gt_nonneg (x : Q) : (40 < Qabs x)%Q -> ~ (x < 0)%Q -> (0 < x)%Q.
Proof.
  intros H Hn. apply Qnot_lt_le in Hn.
  rewrite (Qabs_pos x Hn) in H. lra.
Qed.

(** What each answer of [swipe] says about the two displacements. *)
Lemma swipe_spec (dx dy : Q) :
  match swipe dx dy with
  | Some GoNext => (40 < Qabs dx /\ Qabs dy < Qabs dx /\ dx < 0)%Q
  | Some GoPrev => (40 < Qabs dx /\ Qabs dy < Qabs dx /\ 0 < dx)%Q
  | None => ~ (40 < Qabs dx /\ Qabs dy < Qabs dx)%Q
  end.
Proof.
  unfold swipe.
  destruct (Qltb 40 (Qabs dx)) eqn:E40; simpl.
  - destruct (Qltb (Qabs dy) (Qabs dx)) eqn:Ed; simpl.
    + apply Qltb_lt in E40. apply Qltb_lt in Ed.
      destruct (Qltb dx 0) eqn:Es.
      * apply Qltb_lt in Es. auto.
      * repeat split; try assumption.
        apply Qabs_gt_nonneg; [assumption |].
        intros H. apply Qltb_lt in H. congruence.
    + intros (_ & H). apply Qltb_lt in H. congruence.
  - intros (H & _). apply Qltb_lt in H. congruence.
Qed.

(** C9: after a touch that started at [(sx, sy)] and ended at [(ex, ey)],
    with [dx = ex - sx] and [dy = ey - sy] as the listener computes them
    (differences of doubles), the [touchend] listener calls [next]
    exactly when [|dx| > 40], [|dx| > |dy|] and [dx < 0], calls [prev]
    exactly when [|dx| > 40], [|dx| > |dy|] and [dx > 0], and otherwise
    navigates nowhere; a drag from [(100, 100)] to [(40, 105)] gives
    [next] and one to [(100, 130)] gives nothing. *)
Theorem swipe_navigates_iff (st : State) (sx sy ex ey : Q) :
  touchend ex ey (touchstart sx sy st) =
    navigate (swipe (double_sub ex sx) (double_sub ey sy))
             (set_touch sx sy false st) /\
  (swipe (double_sub ex sx) (double_sub ey sy) = Some GoNext <->
   (40 < Qabs (double_sub ex sx) /\
    Qabs (double_sub ey sy) < Qabs (double_sub ex sx) /\
    double_sub ex sx < 0)%Q) /\
  (swipe (double_sub ex sx) (double_sub ey sy) = Some GoPrev <->
   (40 < Qabs (double_sub ex sx) /\
    Qabs (double_sub ey sy) < Qabs (double_sub ex sx) /\
    0 < double_sub ex sx)%Q) /\
  (swipe (double_sub ex sx) (double_sub ey sy) = None <->
   ~ (40 < Qabs (double_sub ex sx) /\
      Qabs (double_sub ey sy) < Qabs (double_sub ex sx))%Q) /\
  navigate (Some GoNext) (set_touch sx sy false st) = next (set_touch sx sy false st) /\
  navigate (Some GoPrev) (set_touch sx sy false st) = prev (set_touch sx sy false st) /\
  navigate None (set_touch sx sy false st) = set_touch sx sy false st /\
  swipe (double_sub 40 100) (double_sub 105 100) = Some GoNext /\
  swipe (double_sub 100 100) (double_sub 130 100) = None.
Proof.
  split; [reflexivity |].
  pose proof (swipe_spec (double_sub ex sx) (double_sub ey sy)) as Hspec.
  destruct (swipe (double_sub ex sx) (double_sub ey sy)) as [[|] |];
    repeat split; try reflexivity; try discriminate; intros; try tauto;
    exfalso; try tauto;
    try (destruct Hspec as (_ & _ & ?); lra).
Qed.

(** The difference of two integral coordinates is exact, and a
    displacement that only rounds to the threshold does not pass it. *)
Example double_sub_samples :
  (double_sub 40 100 == -60)%Q /\
  (double_sub 105 100 == 5)%Q /\
  (double_sub 40 (- (1 # 1152921504606846976)) == 40)%Q /\
  swipe (double_sub 40 (- (1 # 1152921504606846976))) (double_sub 0 0) = None.
Proof. vm_compute. repeat split. Qed.

(** Without a preceding [touchstart] the listener does nothing. *)
Lemma touchend_idle (st : State) (x y : Q) :
  touching st = false -> touchend x y st = st.
Proof. intros E. unfold touchend. rewrite E. reflexivity. Qed.

(** ** Closing the modal *)

(** C10: [closeModal] keeps [projects], [currentProject], [slides] and
    [currentSlide], and with them everything but the modal's visibility
    and [aria-hidden], the two scroll-lock styles and the focus. *)
Theorem closeModal_frame (st : State) :
  projects (closeModal st) = projects st /\
  currentProject (closeModal st) = currentProject st /\
  slides (closeModal st) = slides st /\
  currentSlide (closeModal st) = currentSlide st /\
  closeModal st =
    with_dom (fun _ =>
                mkDom true (Some "true") "" ""
                      (match lastFocused st with
                       | Some e => Some e
                       | None => activeElement (dom st)
                       end)
                      (img_opacity (dom st)) (img_transition (dom st))
                      (img_src (dom st)) (img_alt (dom st))
                      (img_onload (dom st)) (title_text (dom st))
                      (content (dom st)) (thumbs (dom st))
                      (progress (dom st))) st.
Proof.
  unfold closeModal, lockScroll. simpl.
  destruct (lastFocused st); simpl; repeat split; reflexivity.
Qed.

(** ** Opener clicks *)

Lemma item_number_valid (st : State) (k : number) :
  valid_project st k <-> exists p, item_number (projects st) k = Some p.
Proof.
  split.
  - intros (z & -> & Hz). simpl. now apply item_in_range.
  - intros [p Hp]. destruct k as [z |]; [| discriminate].
    exists z. split; [reflexivity |]. eapply item_Some_range. exact Hp.
Qed.

(** X16: [openProject] completes normally exactly when its argument is
    an integer that names a project of the list; for every other number
    it raises a [TypeError] after [currentProject] was assigned and
    before anything else was changed. *)
Theorem openProject_outcome (k : number) (st : State) :
  (fst (openProject k st) = Normal <-> valid_project st k) /\
  (fst (openProject k st) = Normal \/
   openProject k st = (Throw TypeError, set_currentProject k st)).
Proof.
  destruct (item_number (projects st) k) as [p |] eqn:E.
  - destruct (openProject_found k st E) as [l El]. rewrite El. simpl.
    split; [| left; reflexivity].
    split; [intros _ | reflexivity].
    apply item_number_valid. now exists p.
  - rewrite (openProject_missing k st E). simpl.
    split; [| right; reflexivity].
    split; [discriminate |].
    intros Hv. apply item_number_valid in Hv. destruct Hv as [p Hp]. congruence.
Qed.

(** C2, which the code breaks: with one project in the list, a click on
    an opener whose [data-index] is ["abc"] (NaN), ["7"] or ["-1"] (out
    of range) is neither defaulted to zero nor wrapped: [projects[index]]
    is [undefined], and [buildSlides] raises a [TypeError]. *)
Lemma opener_click_raises :
  fst (opener_click (Some "abc") (initState [demo_project] demo_dom))
    = Throw TypeError /\
  fst (opener_click (Some "7") (initState [demo_project] demo_dom))
    = Throw TypeError /\
  fst (opener_click (Some "-1") (initState [demo_project] demo_dom))
    = Throw TypeError.
Proof. vm_compute. repeat split. Qed.

(** An absent attribute opens the first project. *)
Example opener_click_absent :
  fst (opener_click None (initState [demo_project] demo_dom)) = Normal /\
  currentProject (snd (opener_click None (initState [demo_project] demo_dom)))
    = Int 0.
Proof. vm_compute. split; reflexivity. Qed.

(** * Further properties of the controller *)

(** ** Induction over the reachable states *)

Lemma reachable_ops_ind (P : State -> Prop) (ps : list Project.t) (d : Dom) :
  P (initState ps d) ->
  (forall i st, P st -> P (showSlide i st)) ->
  (forall k st, P st -> P (snd (openProject k st))) ->
  (forall st, P st -> P (closeModal st)) ->
  (forall x y t st, P st -> P (set_touch x y t st)) ->
  (forall st, P st -> P (animation_frame st)) ->
  (forall st, P st -> P (image_load st)) ->
  (forall e st, P st -> P (with_dom (set_activeElement e) st)) ->
  (forall on st, P st -> P (lockScroll on st)) ->
  forall st, reachable ps d st -> P st.
Proof.
  intros Hinit Hshow Hopen Hclose Htouch Hframe Hload Hfocus Hlock st Hr.
  induction Hr as [| e st _ IH | o st _ IH].
  - exact Hinit.
  - destruct e; simpl.
    + apply Hopen, IH.
    + apply Hclose, IH.
    + apply Hclose, IH.
    + apply Hshow, IH.
    + apply Hshow, IH.
    + apply Hshow, IH.
    + unfold thumb_click. destruct (nth_error _ _); [apply Hshow |]; exact IH.
    + unfold keydown. destruct (modal_hidden (dom st)); [assumption |].
      destruct (String.eqb key "ArrowLeft"); [apply Hshow |];
        (destruct (String.eqb key "ArrowRight"); [apply Hshow |]);
        (destruct (String.eqb key "Escape"); [apply Hclose |]); assumption.
    + apply Htouch, IH.
    + unfold touchend. destruct (touching st); [| assumption].
      unfold navigate. destruct (swipe _ _) as [[|] |];
        [apply Hshow | apply Hshow |]; apply Htouch, IH.
    + apply Hframe, IH.
    + apply Hload, IH.
    + apply Hfocus, IH.
    + apply Hlock, IH.
  - destruct o; simpl.
    + apply Hopen, IH.
    + apply Hshow, IH.
    + apply Hshow, IH.
    + apply Hshow, IH.
    + apply Hclose, IH.
Qed.

(** ** The thumbnail strip *)

Lemma thumbs_ok_reachable (ps : list Project.t) (d : Dom) (st : State) :
  reachable ps d st -> thumbs_ok st.
Proof.
  apply reachable_ops_ind.
  - left. reflexivity.
  - intros i s0 H. destruct (showSlide_cases i s0) as [E | (s & l & _ & E)];
      rewrite E; [assumption |]. right. reflexivity.
  - intros k s0 H. destruct (item_number (projects s0) k) as [p |] eqn:E.
    + destruct (openProject_found k s0 E) as [l El]. rewrite El.
      right. reflexivity.
    + rewrite (openProject_missing k s0 E). exact H.
  - intros s0 H. unfold closeModal. destruct (lastFocused _); exact H.
  - intros x y t s0 H. exact H.
  - intros s0 H. unfold animation_frame. destruct (frames s0); exact H.
  - intros s0 H. unfold image_load. destruct (img_onload _); exact H.
  - intros e s0 H. exact H.
  - intros on s0 H. exact H.
Qed.

Lemma thumbs_from_length (c from : Z) (l : list Slide.t) :
  List.length (thumbs_from c from l) = List.length l.
Proof.
  revert from. induction l as [| s r IH]; intros from; simpl;
    [reflexivity | now rewrite IH].
Qed.

Lemma thumbs_from_nth (c : Z) (l : list Slide.t) :
  forall (from : Z) (j : nat) (t : Thumb),
    nth_error (thumbs_from c from l) j = Some t ->
    exists s,
      nth_error l j = Some s /\
      t = mkThumb ("Go to slide " ++ toString (from + Z.of_nat j + 1))
                  (Slide.src s)
                  (str_or (Slide.alt s)
                          ("Slide " ++ toString (from + Z.of_nat j + 1)))
                  (from + Z.of_nat j =? c)
                  (from + Z.of_nat j).
Proof.
  induction l as [| s r IH]; intros from j t H.
  - destruct j; discriminate.
  - destruct j as [| j]; simpl in H.
    + injection H as <-. exists s. split; [reflexivity |].
      simpl Z.of_nat. rewrite Z.add_0_r. reflexivity.
    + destruct (IH (from + 1) j t H) as (s' & Hs & ->).
      exists s'. split; [exact Hs |].
      replace (from + 1 + Z.of_nat j) with (from + Z.of_nat (S j)) by lia.
      reflexivity.
Qed.

(** X1: while there are slides, the strip has one button per slide;
    button [j] shows slide [j], calls [showSlide(j)], and is the
    highlighted one exactly when [j] is [currentSlide]. *)
Theorem thumbs_mirror_slides
  (ps : list Project.t) (d : Dom) (st : State)
  (Hr : reachable ps d st) (Hne : slides st <> []) :
  List.length (thumbs (dom st)) = List.length (slides st) /\
  forall (j : nat) (t : Thumb),
    nth_error (thumbs (dom st)) j = Some t ->
    goes_to t = Z.of_nat j /\
    highlighted t = (Z.of_nat j =? currentSlide st) /\
    exists s, nth_error (slides st) j = Some s /\ thumb_src t = Slide.src s.
Proof.
  destruct (thumbs_ok_reachable Hr) as [He | Ht]; [contradiction |].
  rewrite Ht. split; [apply thumbs_from_length |].
  intros j t H. destruct (thumbs_from_nth _ _ _ _ H) as (s & Hs & ->).
  simpl. repeat split. exists s. split; [exact Hs | reflexivity].
Qed.

Lemma thumbs_mirror_slides_witness :
  List.length (thumbs (dom demo_opened)) = List.length (slides demo_opened) /\
  forall (j : nat) (t : Thumb),
    nth_error (thumbs (dom demo_opened)) j = Some t ->
    goes_to t = Z.of_nat j /\
    highlighted t = (Z.of_nat j =? currentSlide demo_opened) /\
    exists s, nth_error (slides demo_opened) j = Some s /\
              thumb_src t = Slide.src s.
Proof.
  apply (@thumbs_mirror_slides [demo_project] demo_dom demo_opened).
  - exact (reach_event (ClickOpener (Some "0"))
             (reach_init [demo_project] demo_dom)).
  - vm_compute. discriminate.
Defined.

(** X2: a click on button [n] of the strip makes slide [n] the current
    one; a click on a button the strip does not have changes nothing. *)
Theorem thumb_click_selects
  (ps : list Project.t) (d : Dom) (st : State) (n : nat)
  (Hr : reachable ps d st) :
  ((n < List.length (slides st))%nat ->
   currentSlide (thumb_click n st) = Z.of_nat n /\
   slides (thumb_click n st) = slides st) /\
  ((List.length (slides st) <= n)%nat -> thumb_click n st = st).
Proof.
  split.
  - intros Hn.
    assert (Hne : slides st <> []) by (destruct (slides st); simpl in Hn; [lia | discriminate]).
    destruct (thumbs_ok_reachable Hr) as [He | Ht]; [contradiction |].
    unfold thumb_click. rewrite Ht.
    destruct (nth_error (thumbs_from (currentSlide st) 0 (slides st)) n)
      as [t |] eqn:E.
    + destruct (thumbs_from_nth _ _ _ _ E) as (s & _ & ->). simpl.
      destruct (@showSlide_wrap (Z.of_nat n) st Hne) as [Hc Hs].
      { pose proof (len_nonneg (slides st)). lia. }
      split; [| exact Hs]. rewrite Hc. apply Z.mod_small. unfold len. lia.
    + apply nth_error_None in E. rewrite thumbs_from_length in E. lia.
  - intros Hn. unfold thumb_click.
    destruct (thumbs_ok_reachable Hr) as [He | Ht].
    + destruct (nth_error _ _); [| reflexivity].
      apply showSlide_missing. rewrite He. apply item_nil.
    + rewrite Ht.
      destruct (nth_error (thumbs_from (currentSlide st) 0 (slides st)) n)
        as [t |] eqn:E; [| reflexivity].
      assert (Hs : nth_error (thumbs_from (currentSlide st) 0 (slides st)) n <> None)
        by congruence.
      apply nth_error_Some in Hs. rewrite thumbs_from_length in Hs. lia.
Qed.

Lemma thumb_click_selects_witness :
  ((2 < List.length (slides demo_opened))%nat ->
   currentSlide (thumb_click 2 demo_opened) = Z.of_nat 2 /\
   slides (thumb_click 2 demo_opened) = slides demo_opened) /\
  ((List.length (slides demo_opened) <= 2)%nat ->
   thumb_click 2 demo_opened = demo_opened).
Proof.
  apply (@thumb_click_selects [demo_project] demo_dom demo_opened 2).
  exact (reach_event (ClickOpener (Some "0"))
           (reach_init [demo_project] demo_dom)).
Defined.

(** ** Pending animation frames *)

Lemma last_frame_snoc (l : list Slide.t) (s : Slide.t) :
  last_frame (l ++ [s]) = Some s.
Proof. unfold last_frame. rewrite rev_app_distr. reflexivity. Qed.

Lemma last_frame_cons (s x : Slide.t) (r : list Slide.t) :
  last_frame (s :: x :: r) = last_frame (x :: r).
Proof.
  unfold last_frame. simpl.
  destruct ((rev r ++ [x])%list) as [| a q] eqn:E.
  - destruct (rev r); discriminate.
  - reflexivity.
Qed.

Lemma last_frame_None (l : list Slide.t) : last_frame l = None -> l = [].
Proof.
  unfold last_frame. intros H. destruct (rev l) eqn:E; [| discriminate].
  rewrite <- (rev_involutive l), E. reflexivity.
Qed.

Lemma render_frame_displays (s : Slide.t) (st : State) :
  displays s (dom (render_frame s st)).
Proof.
  unfold displays, render_frame, str_or. simpl. repeat split.
  - destruct (String.eqb (Slide.alt s) "") eqn:E; [| reflexivity].
    apply String.eqb_eq in E. now rewrite E.
  - destruct (hasHTML (Slide.detail s)); [reflexivity |].
    destruct (String.eqb (nullish (Slide.detail s) "") "") eqn:E; [| reflexivity].
    apply String.eqb_eq in E. now rewrite E.
Qed.

Lemma frames_ok_reachable (ps : list Project.t) (d : Dom) (st : State) :
  reachable ps d st -> frames_ok st.
Proof.
  apply reachable_ops_ind.
  - left. reflexivity.
  - intros i s0 H. destruct (showSlide_cases i s0) as [E | (s & l & Hs & E)];
      rewrite E; [assumption |].
    unfold frames_ok. simpl. rewrite last_frame_snoc. exact Hs.
  - intros k s0 H. destruct (item_number (projects s0) k) as [p |] eqn:E.
    + destruct (openProject_found k s0 E) as [l El]. rewrite El.
      unfold frames_ok. simpl. rewrite last_frame_snoc. reflexivity.
    + rewrite (openProject_missing k s0 E). exact H.
  - intros s0 H. unfold closeModal. destruct (lastFocused _); exact H.
  - intros x y t s0 H. exact H.
  - intros s0 H. unfold animation_frame.
    destruct (frames s0) as [| s [| x r]] eqn:E; [exact H | |].
    + unfold frames_ok in *. rewrite E in H. simpl in H.
      change (frames (render_frame s (set_frames [] s0))) with (@nil Slide.t).
      simpl. right. exists s. split; [exact H |].
      apply (render_frame_displays s (set_frames [] s0)).
    + unfold frames_ok in *. rewrite E, last_frame_cons in H.
      change (frames (render_frame s (set_frames (x :: r) s0))) with (x :: r).
      destruct (last_frame (x :: r)) eqn:EL; [exact H |].
      apply last_frame_None in EL. discriminate.
  - intros s0 H. unfold image_load. destruct (img_onload _); exact H.
  - intros e s0 H. exact H.
  - intros on s0 H. exact H.
Qed.

Lemma drain_frames (n : nat) :
  forall st, List.length (frames st) = n ->
    frames (Nat.iter n animation_frame st) = [] /\
    slides (Nat.iter n animation_frame st) = slides st /\
    currentSlide (Nat.iter n animation_frame st) = currentSlide st.
Proof.
  induction n as [| n IH]; intros st Hl.
  - simpl. destruct (frames st); [auto | discriminate].
  - rewrite Nat.iter_succ_r.
    destruct (frames st) as [| s r] eqn:E; [discriminate |].
    injection Hl as Hl.
    destruct (IH (animation_frame st)) as (H1 & H2 & H3).
    + unfold animation_frame. rewrite E. exact Hl.
    + rewrite H1, H2, H3. unfold animation_frame. rewrite E. auto.
Qed.

Lemma reachable_frames (ps : list Project.t) (d : Dom) (n : nat) (st : State) :
  reachable ps d st -> reachable ps d (Nat.iter n animation_frame st).
Proof.
  intros Hr. induction n as [| n IH]; [exact Hr |].
  simpl. exact (reach_event AnimationFrame IH).
Qed.

(** X3: once every pending animation-frame callback has run, the image
    and the detail panel show the current slide: its source, its [alt],
    and its detail as markup when [hasHTML] accepts it and as text
    otherwise; running the callbacks moves neither [slides] nor
    [currentSlide]. *)
Theorem frames_settle_on_current_slide
  (ps : list Project.t) (d : Dom) (st : State)
  (Hr : reachable ps d st) (Hne : slides st <> []) :
  exists s,
    item (slides st) (currentSlide st) = Some s /\
    frames (Nat.iter (List.length (frames st)) animation_frame st) = [] /\
    slides (Nat.iter (List.length (frames st)) animation_frame st)
      = slides st /\
    currentSlide (Nat.iter (List.length (frames st)) animation_frame st)
      = currentSlide st /\
    displays s (dom (Nat.iter (List.length (frames st)) animation_frame st)).
Proof.
  destruct (drain_frames st eq_refl) as (Hf & Hs & Hc).
  pose proof (frames_ok_reachable
                (reachable_frames (List.length (frames st)) Hr)) as Hok.
  unfold frames_ok in Hok. rewrite Hf, Hs, Hc in Hok. simpl in Hok.
  destruct Hok as [He | (s & Hi & Hd)]; [contradiction |].
  exists s. auto.
Qed.

Lemma frames_settle_on_current_slide_witness :
  exists s,
    item (slides demo_stepped) (currentSlide demo_stepped) = Some s /\
    frames (Nat.iter (List.length (frames demo_stepped)) animation_frame
                     demo_stepped) = [] /\
    slides (Nat.iter (List.length (frames demo_stepped)) animation_frame
                     demo_stepped) = slides demo_stepped /\
    currentSlide (Nat.iter (List.length (frames demo_stepped))
                           animation_frame demo_stepped)
      = currentSlide demo_stepped /\
    displays s (dom (Nat.iter (List.length (frames demo_stepped))
                              animation_frame demo_stepped)).
Proof.
  apply (@frames_settle_on_current_slide [demo_project] demo_dom demo_stepped).
  - unfold demo_stepped. apply reach_event.
    exact (reach_event (ClickOpener (Some "0"))
             (reach_init [demo_project] demo_dom)).
  - vm_compute. discriminate.
Defined.

(** ** The modal *)

Lemma modal_ok_reachable (ps : list Project.t) (d : Dom) (st : State) :
  modal_hidden d = true -> reachable ps d st -> modal_ok st.
Proof.
  intros Hd. apply reachable_ops_ind.
  - unfold modal_ok. simpl. congruence.
  - intros i s0 H. destruct (showSlide_cases i s0) as [E | (s & l & _ & E)];
      rewrite E; [assumption |]. exact H.
  - intros k s0 H. destruct (item_number (projects s0) k) as [p |] eqn:E.
    + destruct (openProject_found k s0 E) as [l El]. rewrite El.
      unfold modal_ok. simpl. intros _. repeat split. discriminate.
    + rewrite (openProject_missing k s0 E). exact H.
  - intros s0 H. unfold closeModal, modal_ok.
    destruct (lastFocused _); simpl; discriminate.
  - intros x y t s0 H. exact H.
  - intros s0 H. unfold animation_frame. destruct (frames s0); exact H.
  - intros s0 H. unfold image_load. destruct (img_onload _); exact H.
  - intros e s0 H. exact H.
  - intros on s0 H. exact H.
Qed.

(** X4: on a host page whose modal starts hidden, whenever the modal is
    visible there are slides, [currentSlide] names one of them, and
    [aria-hidden] is ["false"]; the scroll lock is not part of this, as
    other instances write the same two styles. *)
Theorem visible_modal_has_slides
  (ps : list Project.t) (d : Dom) (st : State)
  (Hd : modal_hidden d = true) (Hr : reachable ps d st)
  (Hv : modal_hidden (dom st) = false) :
  slides st <> [] /\
  0 <= currentSlide st < len (slides st) /\
  modal_aria_hidden (dom st) = Some "false".
Proof.
  destruct (modal_ok_reachable Hd Hr Hv) as (Hne & Ha).
  repeat split; try assumption;
    apply (nav_ok_nonempty (proj1 (reachable_inv Hr)) Hne).
Qed.

Lemma visible_modal_has_slides_witness :
  slides demo_opened <> [] /\
  0 <= currentSlide demo_opened < len (slides demo_opened) /\
  modal_aria_hidden (dom demo_opened) = Some "false".
Proof.
  apply (@visible_modal_has_slides [demo_project] demo_dom demo_opened).
  - reflexivity.
  - exact (reach_event (ClickOpener (Some "0"))
             (reach_init [demo_project] demo_dom)).
  - reflexivity.
Defined.



(** X6: opening a project while the modal is already open records the
    close button, which holds the focus since the first opening, as the
    element to restore: closing then leaves the focus on the close button
    and the element focused before the first opening is forgotten. *)
Theorem reopen_forgets_focus
  (st : State) (z1 z2 : Z)
  (H1 : 0 <= z1 < len (projects st)) (H2 : 0 <= z2 < len (projects st)) :
  lastFocused (snd (openProject (Int z2) (snd (openProject (Int z1) st))))
    = Some CloseBtn /\
  activeElement
    (dom (closeModal (snd (openProject (Int z2) (snd (openProject (Int z1) st))))))
    = Some CloseBtn.
Proof.
  destruct (item_in_range (projects st) H1) as [p1 Hp1].
  destruct (item_in_range (projects st) H2) as [p2 Hp2].
  destruct (@openProject_found (Int z1) st p1 Hp1) as [l1 E1]. rewrite E1.
  simpl snd.
  match goal with
  | |- context [openProject (Int z2) ?t] =>
      destruct (@openProject_found (Int z2) t p2 Hp2) as [l2 E2]; rewrite E2
  end.
  unfold closeModal. simpl. split; reflexivity.
Qed.

Lemma reopen_forgets_focus_witness :
  lastFocused
    (snd (openProject (Int 0)
            (snd (openProject (Int 1)
                    (initState [bare_project; demo_project] demo_dom)))))
    = Some CloseBtn /\
  activeElement
    (dom (closeModal
            (snd (openProject (Int 0)
                    (snd (openProject (Int 1)
                            (initState [bare_project; demo_project] demo_dom)))))))
    = Some CloseBtn.
Proof.
  apply (@reopen_forgets_focus (initState [bare_project; demo_project] demo_dom) 1 0);
    vm_compute; (split; [discriminate | reflexivity]).
Defined.

(** ** The keyboard *)

Lemma closeModal_hidden (st : State) : modal_hidden (dom (closeModal st)) = true.
Proof. unfold closeModal. destruct (lastFocused _); reflexivity. Qed.

(** X7: the [keydown] listener ignores every key while the modal is
    hidden, ignores every key other than Escape and the two arrows while
    it is visible, and after an Escape, which hides the modal, ignores
    whatever key follows. *)
Theorem keydown_only_when_open (key key2 : string) (st : State) :
  (modal_hidden (dom st) = true -> keydown key st = st) /\
  (String.eqb key "Escape" = false ->
   String.eqb key "ArrowRight" = false ->
   String.eqb key "ArrowLeft" = false -> keydown key st = st) /\
  modal_hidden (dom (keydown "Escape" st)) = true /\
  keydown key2 (keydown "Escape" st) = keydown "Escape" st.
Proof.
  assert (Hh : modal_hidden (dom (keydown "Escape" st)) = true).
  { unfold keydown. destruct (modal_hidden (dom st)) eqn:E; [exact E |].
    simpl. apply closeModal_hidden. }
  repeat split.
  - intros H. unfold keydown. rewrite H. reflexivity.
  - intros H1 H2 H3. unfold keydown. rewrite H1, H2, H3.
    destruct (modal_hidden (dom st)); reflexivity.
  - exact Hh.
  - unfold keydown at 1. rewrite Hh. reflexivity.
Qed.

(** ** Repeated steps *)

Lemma iter_next (k : nat) :
  forall st, slides st <> [] -> 0 <= currentSlide st < len (slides st) ->
    currentSlide (Nat.iter k next st) =
      (currentSlide st + Z.of_nat k) mod len (slides st) /\
    slides (Nat.iter k next st) = slides st.
Proof.
  induction k as [| k IH]; intros st Hne Hc.
  - simpl. rewrite Z.add_0_r. split; [| reflexivity].
    symmetry. apply Z.mod_small. exact Hc.
  - pose proof (len_pos Hne) as Hn.
    destruct (IH st Hne Hc) as [Ec Es].
    change (Nat.iter (S k) next st) with (next (Nat.iter k next st)).
    assert (Hne' : slides (Nat.iter k next st) <> []) by (rewrite Es; exact Hne).
    assert (Hc' : 0 <= currentSlide (Nat.iter k next st)
                  < len (slides (Nat.iter k next st))).
    { rewrite Ec, Es. apply Z.mod_pos_bound. exact Hn. }
    destruct (next_wrap (Nat.iter k next st) Hne' Hc') as [En Esn].
    rewrite En, Esn, Ec, Es. split; [| reflexivity].
    rewrite Zplus_mod_idemp_l. f_equal. lia.
Qed.

Lemma iter_prev (k : nat) :
  forall st, slides st <> [] -> 0 <= currentSlide st < len (slides st) ->
    currentSlide (Nat.iter k prev st) =
      (currentSlide st - Z.of_nat k) mod len (slides st) /\
    slides (Nat.iter k prev st) = slides st.
Proof.
  induction k as [| k IH]; intros st Hne Hc.
  - simpl. rewrite Z.sub_0_r. split; [| reflexivity].
    symmetry. apply Z.mod_small. exact Hc.
  - pose proof (len_pos Hne) as Hn.
    destruct (IH st Hne Hc) as [Ec Es].
    change (Nat.iter (S k) prev st) with (prev (Nat.iter k prev st)).
    assert (Hne' : slides (Nat.iter k prev st) <> []) by (rewrite Es; exact Hne).
    assert (Hc' : 0 <= currentSlide (Nat.iter k prev st)
                  < len (slides (Nat.iter k prev st))).
    { rewrite Ec, Es. apply Z.mod_pos_bound. exact Hn. }
    destruct (prev_wrap (Nat.iter k prev st) Hne' Hc') as [En Esn].
    rewrite En, Esn, Ec, Es. split; [| reflexivity].
    rewrite Zminus_mod_idemp_l. f_equal. lia.
Qed.

(** X8: from a valid position, [k] calls of [next] lead to slide
    [(currentSlide + k) mod slides.length] and [k] calls of [prev] to
    [(currentSlide - k) mod slides.length]; as many calls as there are
    slides, in either direction, lead back to the slide they started
    from. *)
Theorem steps_cycle_through_slides
  (st : State) (k : nat)
  (Hne : slides st <> []) (Hc : 0 <= currentSlide st < len (slides st)) :
  currentSlide (Nat.iter k next st) =
    (currentSlide st + Z.of_nat k) mod len (slides st) /\
  currentSlide (Nat.iter k prev st) =
    (currentSlide st - Z.of_nat k) mod len (slides st) /\
  currentSlide (Nat.iter (List.length (slides st)) next st) = currentSlide st /\
  currentSlide (Nat.iter (List.length (slides st)) prev st) = currentSlide st.
Proof.
  pose proof (len_pos Hne) as Hn.
  repeat split.
  - apply iter_next; assumption.
  - apply iter_prev; assumption.
  - rewrite (proj1 (iter_next (List.length (slides st)) st Hne Hc)).
    change (Z.of_nat (List.length (slides st))) with (len (slides st)).
    replace (currentSlide st + len (slides st))
      with (currentSlide st + 1 * len (slides st)) by ring.
    rewrite Z_mod_plus_full. apply Z.mod_small. exact Hc.
  - rewrite (proj1 (iter_prev (List.length (slides st)) st Hne Hc)).
    change (Z.of_nat (List.length (slides st))) with (len (slides st)).
    replace (currentSlide st - len (slides st))
      with (currentSlide st + (-1) * len (slides st)) by ring.
    rewrite Z_mod_plus_full. apply Z.mod_small. exact Hc.
Qed.

Lemma steps_cycle_through_slides_witness :
  currentSlide (Nat.iter 5 next demo_opened) =
    (currentSlide demo_opened + Z.of_nat 5) mod len (slides demo_opened) /\
  currentSlide (Nat.iter 5 prev demo_opened) =
    (currentSlide demo_opened - Z.of_nat 5) mod len (slides demo_opened) /\
  currentSlide (Nat.iter (List.length (slides demo_opened)) next demo_opened)
    = currentSlide demo_opened /\
  currentSlide (Nat.iter (List.length (slides demo_opened)) prev demo_opened)
    = currentSlide demo_opened.
Proof.
  apply (@steps_cycle_through_slides demo_opened 5).
  - vm_compute. discriminate.
  - vm_compute. split; [discriminate | reflexivity].
Defined.

(** ** Indices far below zero *)

Lemma clamp_below (i n : Z) :
  0 < n -> i < - n -> clamp i n = - ((- (i + n)) mod n).
Proof.
  intros Hn Hi. unfold clamp.
  destruct (Z.eqb_spec n 0) as [E | _]; [lia |].
  replace (i + n) with (- (- (i + n))) at 1 by ring.
  rewrite Z.rem_opp_l by lia.
  rewrite Z.rem_mod_nonneg by lia. reflexivity.
Qed.

(** X9: with slides present, [showSlide(i)] for a safe integer [i] below
    [-slides.length] does not wrap: it changes nothing at all unless [i]
    is a multiple of the slide count, in which case it shows slide [0]. *)
Theorem showSlide_far_below_zero
  (st : State) (i : Z)
  (Hne : slides st <> []) (Hsafe : - max_safe <= i)
  (Hi : i < - len (slides st)) :
  (i mod len (slides st) <> 0 -> showSlide i st = st) /\
  (i mod len (slides st) = 0 -> currentSlide (showSlide i st) = 0).
Proof.
  pose proof (len_pos Hne) as Hn.
  pose proof (clamp_below Hn Hi) as Ec.
  assert (Hm : (- (i + len (slides st))) mod len (slides st)
               = (- i) mod len (slides st)).
  { replace (- (i + len (slides st))) with (- i + (-1) * len (slides st)) by ring.
    apply Z_mod_plus_full. }
  rewrite Hm in Ec.
  pose proof (Z.mod_pos_bound (- i) (len (slides st)) Hn) as Hb.
  split.
  - intros Hnz. apply showSlide_missing.
    destruct (item (slides st) (clamp i (len (slides st)))) as [s |] eqn:E;
      [| reflexivity].
    apply item_Some_range in E. rewrite Ec in E.
    assert (Hz : (- i) mod len (slides st) = 0) by lia.
    exfalso. apply Hnz.
    apply Z.mod_divide in Hz; [| lia]. apply Z.mod_divide; [lia |].
    apply (proj1 (Z.divide_opp_r _ _)) in Hz. exact Hz.
  - intros Hz.
    assert (Hz' : (- i) mod len (slides st) = 0).
    { apply Z.mod_divide in Hz; [| lia]. apply Z.mod_divide; [lia |].
      apply (proj2 (Z.divide_opp_r _ _)). exact Hz. }
    rewrite Hz' in Ec. simpl in Ec.
    destruct (item_in_range (slides st) (i := 0)) as [s Hs]; [lia |].
    rewrite <- Ec in Hs.
    destruct (showSlide_found i st Hs) as [l El]. rewrite El. simpl. exact Ec.
Qed.

Lemma showSlide_far_below_zero_witness :
  ((-4) mod len (slides demo_opened) <> 0 ->
   showSlide (-4) demo_opened = demo_opened) /\
  ((-4) mod len (slides demo_opened) = 0 ->
   currentSlide (showSlide (-4) demo_opened) = 0).
Proof.
  apply (@showSlide_far_below_zero demo_opened (-4)).
  - vm_compute. discriminate.
  - vm_compute. discriminate.
  - vm_compute. reflexivity.
Defined.

(** ** Touch gestures *)

Lemma showSlide_touching (i : Z) (st : State) :
  touching (showSlide i st) = touching st.
Proof.
  destruct (showSlide_cases i st) as [E | (s & l & _ & E)]; rewrite E; reflexivity.
Qed.

(** X10: the mirror image of a drag navigates the other way, the
    vertical direction of a drag does not matter, and a [touchend]
    uses the gesture up: a second [touchend] without a new [touchstart]
    changes nothing. *)
Theorem swipe_mirror_and_consume (st : State) (dx dy x y x' y' : Q) :
  swipe (- dx) dy = opposite (swipe dx dy) /\
  swipe dx (- dy) = swipe dx dy /\
  touching (touchend x y st) = false /\
  touchend x' y' (touchend x y st) = touchend x y st.
Proof.
  assert (Ht : touching (touchend x y st) = false).
  { unfold touchend. destruct (touching st) eqn:E; [| exact E].
    unfold navigate. destruct (swipe _ _) as [[|] |];
      unfold next, prev; rewrite ?showSlide_touching; reflexivity. }
  split; [| split; [| split; [exact Ht |]]].
  - pose proof (swipe_spec (- dx) dy) as H1.
    pose proof (swipe_spec dx dy) as H2.
    destruct (swipe (- dx) dy) as [[|] |], (swipe dx dy) as [[|] |];
      simpl; try reflexivity; exfalso; rewrite Qabs_opp in H1;
      try (destruct H1 as (? & ? & ?); destruct H2 as (? & ? & ?); lra);
      try (destruct H1 as (? & ? & ?); tauto);
      try (destruct H2 as (? & ? & ?); tauto).
  - pose proof (swipe_spec dx (- dy)) as H1.
    pose proof (swipe_spec dx dy) as H2.
    destruct (swipe dx (- dy)) as [[|] |], (swipe dx dy) as [[|] |];
      simpl; try reflexivity; exfalso; rewrite Qabs_opp in H1;
      try (destruct H1 as (? & ? & ?); destruct H2 as (? & ? & ?); lra);
      try (destruct H1 as (? & ? & ?); tauto);
      try (destruct H2 as (? & ? & ?); tauto).
  - unfold touchend at 1. rewrite Ht. reflexivity.
Qed.

(** ** The preloader *)

Lemma preload_one_found (st : State) (k : Z) (s : Slide.t) :
  item (slides st) k = Some s ->
  preload_one st k = set_preloads (preloads st ++ truthy_srcs [s]) st.
Proof.
  intros E. unfold preload_one, truthy_srcs. rewrite E. simpl.
  destruct (String.eqb (Slide.src s) ""); simpl; [| reflexivity].
  rewrite app_nil_r. destruct st; reflexivity.
Qed.

(** X11: around a valid position [i], [preloadNeighbors] requests the
    non-empty sources of the slides at [(i - 1) mod slides.length] and
    [(i + 1) mod slides.length], in this order, and changes nothing
    else; with a single slide it requests that slide's own image twice. *)
Theorem preloadNeighbors_requests
  (st : State) (i : Z)
  (Hne : slides st <> []) (Hi : 0 <= i < len (slides st)) :
  exists a b,
    item (slides st) ((i - 1) mod len (slides st)) = Some a /\
    item (slides st) ((i + 1) mod len (slides st)) = Some b /\
    preloadNeighbors i st =
      set_preloads (preloads st ++ truthy_srcs [a; b]) st /\
    (len (slides st) = 1 -> a = b /\ item (slides st) i = Some a).
Proof.
  pose proof (len_pos Hne) as Hn.
  assert (Ea : clamp (i - 1) (len (slides st)) = (i - 1) mod len (slides st))
    by (apply clamp_mod; lia).
  assert (Eb : clamp (i + 1) (len (slides st)) = (i + 1) mod len (slides st))
    by (apply clamp_mod; lia).
  destruct (item_in_range (slides st) (i := (i - 1) mod len (slides st)))
    as [a Ha]; [apply Z.mod_pos_bound; exact Hn |].
  destruct (item_in_range (slides st) (i := (i + 1) mod len (slides st)))
    as [b Hb]; [apply Z.mod_pos_bound; exact Hn |].
  exists a, b. split; [exact Ha |]. split; [exact Hb |]. split.
  - unfold preloadNeighbors. simpl fold_left. rewrite Ea, Eb.
    rewrite (preload_one_found st _ Ha).
    rewrite (preload_one_found (set_preloads _ st) _ Hb). simpl.
    unfold set_preloads. simpl. rewrite <- app_assoc.
    unfold truthy_srcs. simpl.
    destruct (String.eqb (Slide.src a) ""); reflexivity.
  - intros E1. rewrite E1, Z.mod_1_r in Ha, Hb.
    assert (i = 0) by lia. subst i. split; [congruence | exact Ha].
Qed.

Lemma preloadNeighbors_requests_witness :
  exists a b,
    item (slides demo_opened) ((0 - 1) mod len (slides demo_opened)) = Some a /\
    item (slides demo_opened) ((0 + 1) mod len (slides demo_opened)) = Some b /\
    preloadNeighbors 0 demo_opened =
      set_preloads (preloads demo_opened ++ truthy_srcs [a; b]) demo_opened /\
    (len (slides demo_opened) = 1 -> a = b /\ item (slides demo_opened) 0 = Some a).
Proof.
  apply (@preloadNeighbors_requests demo_opened 0).
  - vm_compute. discriminate.
  - vm_compute. split; [discriminate | reflexivity].
Defined.

(** ** The crossfade *)

(** X12: when no callback is pending and no [onLoad] listener is
    registered, a [showSlide] that finds its slide makes the image
    transparent; a [load] event arriving before the animation frame
    leaves it transparent; after the animation frame, which swaps the
    source and registers one listener, a [load] event makes the image
    opaque and removes the listener, and a further [load] event changes
    nothing. *)
Theorem crossfade_sequence
  (st : State) (i : Z) (s : Slide.t)
  (Hs : item (slides st) (clamp i (len (slides st))) = Some s)
  (Hf : frames st = []) (Hl : img_onload (dom st) = O) :
  img_opacity (dom (showSlide i st)) = "0" /\
  image_load (showSlide i st) = showSlide i st /\
  img_opacity (dom (animation_frame (showSlide i st))) = "0" /\
  img_src (dom (animation_frame (showSlide i st))) = Slide.src s /\
  img_onload (dom (animation_frame (showSlide i st))) = 1%nat /\
  img_opacity (dom (image_load (animation_frame (showSlide i st)))) = "1" /\
  img_onload (dom (image_load (animation_frame (showSlide i st)))) = O /\
  image_load (image_load (animation_frame (showSlide i st))) =
    image_load (animation_frame (showSlide i st)).
Proof.
  destruct (showSlide_found i st Hs) as [l El]. rewrite El.
  unfold image_load, animation_frame, shown. simpl.
  rewrite Hf. simpl. rewrite !Hl. simpl.
  repeat split; reflexivity.
Qed.

Lemma crossfade_sequence_witness :
  img_opacity (dom (showSlide 1 demo_settled)) = "0" /\
  image_load (showSlide 1 demo_settled) = showSlide 1 demo_settled /\
  img_opacity (dom (animation_frame (showSlide 1 demo_settled))) = "0" /\
  img_src (dom (animation_frame (showSlide 1 demo_settled))) =
    Slide.src (Slide.mk "b.jpg" "Alpha" (Some "<b>Bold</b>")) /\
  img_onload (dom (animation_frame (showSlide 1 demo_settled))) = 1%nat /\
  img_opacity (dom (image_load (animation_frame (showSlide 1 demo_settled)))) = "1" /\
  img_onload (dom (image_load (animation_frame (showSlide 1 demo_settled)))) = O /\
  image_load (image_load (animation_frame (showSlide 1 demo_settled))) =
    image_load (animation_frame (showSlide 1 demo_settled)).
Proof.
  apply (@crossfade_sequence demo_settled 1
           (Slide.mk "b.jpg" "Alpha" (Some "<b>Bold</b>")));
    vm_compute; reflexivity.
Defined.

(** ** Labels *)

Lemma str_or_nonempty (a b : string) : b <> "" -> str_or a b <> "".
Proof.
  intros Hb. unfold str_or. destruct (String.eqb a "") eqn:E; [exact Hb |].
  apply String.eqb_neq. exact E.
Qed.

(** X13: the title a frame callback writes is never empty (it falls back
    from the project's [alt] to the slide's and then to ["Image N"]), and
    every button of a strip carries a non-empty [aria-label] and a
    non-empty image [alt]. *)
Theorem labels_never_empty
  (s : Slide.t) (st : State) (c from : Z) (l : list Slide.t) :
  title_text (dom (render_frame s st)) <> "" /\
  Forall (fun t => aria_label t <> "" /\ thumb_alt t <> "")
         (thumbs_from c from l).
Proof.
  split.
  - unfold render_frame. simpl.
    apply str_or_nonempty, str_or_nonempty. discriminate.
  - revert from. induction l as [| x r IH]; intros from; simpl; constructor.
    + simpl. split; [discriminate |]. apply str_or_nonempty. discriminate.
    + apply IH.
Qed.

(** ** The markup test *)

Lemma contains_gt_iff (l : list ascii) :
  contains_gt l = true <-> exists mid post, l = (mid ++ ">"%char :: post)%list.
Proof.
  induction l as [| c r IH]; simpl.
  - split; [discriminate |]. intros (mid & post & H).
    destruct mid; discriminate.
  - rewrite orb_true_iff, IH. split.
    + intros [H | (mid & post & ->)].
      * apply Ascii.eqb_eq in H. subst c. now exists [], r.
      * now exists (c :: mid), post.
    + intros (mid & post & H). destruct mid as [| m mid]; simpl in H.
      * injection H as -> _. left. apply Ascii.eqb_refl.
      * injection H as _ ->. right. now exists mid, post.
Qed.

Lemma matches_tag_iff (l : list ascii) :
  matches_tag l = true <->
  exists pre c mid post,
    l = (pre ++ "<"%char :: c :: mid ++ ">"%char :: post)%list /\
    is_letter c = true.
Proof.
  induction l as [| a r IH].
  - simpl. split; [discriminate |]. intros (pre & c & mid & post & H & _).
    destruct pre; discriminate.
  - change (matches_tag (a :: r))
      with ((Ascii.eqb a "<" &&
             match r with
             | d :: r' => is_letter d && contains_gt r'
             | [] => false
             end) || matches_tag r).
    rewrite orb_true_iff, IH. split.
    + intros [H | (pre & c & mid & post & -> & Hc)].
      * apply andb_true_iff in H. destruct H as [Ha Hr].
        apply Ascii.eqb_eq in Ha. subst a.
        destruct r as [| d r']; [discriminate |].
        apply andb_true_iff in Hr. destruct Hr as [Hd Hg].
        apply contains_gt_iff in Hg. destruct Hg as (mid & post & ->).
        now exists [], d, mid, post.
      * now exists (a :: pre), c, mid, post.
    + intros (pre & c & mid & post & H & Hc).
      destruct pre as [| p pre]; simpl in H.
      * injection H as -> ->. left. rewrite Ascii.eqb_refl, Hc. simpl.
        apply contains_gt_iff. now exists mid, post.
      * injection H as _ ->. right. now exists pre, c, mid, post.
Qed.

(** X14: [hasHTML] accepts a detail exactly when it contains a ['<']
    immediately followed by an ASCII letter and, anywhere after that
    letter, a ['>']; an absent detail is not markup. *)
Theorem hasHTML_iff_tag (s : string) :
  hasHTML None = false /\
  (hasHTML (Some s) = true <->
   exists pre c mid post,
     list_ascii_of_string s =
       (pre ++ "<"%char :: c :: mid ++ ">"%char :: post)%list /\
     is_letter c = true).
Proof.
  split; [reflexivity |].
  unfold hasHTML. rewrite andb_true_iff, matches_tag_iff. split.
  - intros [_ H]. exact H.
  - intros H. split; [| exact H].
    destruct H as (pre & c & mid & post & H & _).
    destruct s; [destruct pre; discriminate | reflexivity].
Qed.

(** ** Indices written in decimal *)

Lemma uint_digits_string (d : Decimal.uint) :
  list_ascii_of_string (NilEmpty.string_of_uint d) = uint_digits d.
Proof. induction d; simpl; congruence. Qed.

Lemma uint_digits_are_digits (d : Decimal.uint) :
  Forall (fun c => is_digit c = true) (uint_digits d).
Proof. induction d; simpl; constructor; (reflexivity || assumption). Qed.

Lemma digits_value_acc (d : Decimal.uint) :
  forall acc : positive,
    digits_value 10 (Z.pos acc) (uint_digits d)
    = Some (Z.pos (Pos.of_uint_acc d acc)).
Proof.
  induction d; intros acc; simpl uint_digits;
    [reflexivity | ..];
    cbn [digits_value];
    match goal with
    | |- context [digit_in 10 ?c] =>
        let v := eval vm_compute in (digit_in 10 c) in
        change (digit_in 10 c) with v
    end;
    cbn [Pos.of_uint_acc];
    match goal with
    | |- digits_value 10 ?a _ = Some (Z.pos (Pos.of_uint_acc _ ?b)) =>
        replace a with (Z.pos b) by lia
    end;
    apply IHd.
Qed.

Lemma digits_value_of_uint (d : Decimal.uint) :
  digits_value 10 0 (uint_digits d) = Some (Z.of_N (Pos.of_uint d)).
Proof.
  induction d; simpl uint_digits;
    [reflexivity | ..];
    cbn [digits_value];
    match goal with
    | |- context [digit_in 10 ?c] =>
        let v := eval vm_compute in (digit_in 10 c) in
        change (digit_in 10 c) with v
    end;
    cbn [Pos.of_uint Z.of_N];
    [exact IHd | ..];
    match goal with
    | |- digits_value 10 ?a _ = Some (Z.pos (Pos.of_uint_acc _ ?b)) =>
        change a with (Z.pos b)
    end;
    apply digits_value_acc.
Qed.

Lemma digit_not_ws (c : ascii) : is_digit c = true -> is_ws c = false.
Proof.
  unfold is_digit, is_ws. intros H.
  apply andb_true_iff in H. destruct H as [H1 H2].
  apply Nat.leb_le in H1. apply Nat.leb_le in H2.
  apply orb_false_iff. split.
  - apply andb_false_iff. right. apply Nat.leb_gt. lia.
  - apply Nat.eqb_neq. lia.
Qed.

Lemma digit_not_char (c x : ascii) :
  is_digit c = true -> is_digit x = false -> Ascii.eqb c x = false.
Proof.
  intros Hc Hx. destruct (Ascii.eqb c x) eqn:E; [| reflexivity].
  apply Ascii.eqb_eq in E. congruence.
Qed.

Lemma drop_ws_digit (l : list ascii) :
  match l with c :: _ => is_digit c = true | [] => True end -> drop_ws l = l.
Proof.
  destruct l as [| c r]; [reflexivity |]. intros H. simpl.
  now rewrite (digit_not_ws c H).
Qed.

Lemma trim_digits (l : list ascii) :
  Forall (fun c => is_digit c = true) l -> trim l = l.
Proof.
  intros H. unfold trim.
  rewrite (drop_ws_digit l) by (destruct H; trivial).
  rewrite drop_ws_digit; [apply rev_involutive |].
  apply Forall_rev in H. destruct H; trivial.
Qed.

Lemma span_digits_all (l : list ascii) :
  Forall (fun c => is_digit c = true) l -> span_digits l = (l, []).
Proof.
  induction 1 as [| c r Hc _ IH]; simpl; [reflexivity |].
  now rewrite Hc, IH.
Qed.

Lemma signed_decimal_digits (c : ascii) (r : list ascii) :
  Forall (fun c => is_digit c = true) (c :: r) ->
  signed_decimal (c :: r) = Int (decimal_value (c :: r)).
Proof.
  intros H. pose proof H as H'. inversion H' as [| ? ? Hc Hr]; subst.
  unfold signed_decimal.
  rewrite (digit_not_char c "+" Hc eq_refl), (digit_not_char c "-" Hc eq_refl).
  assert (Ei : String.eqb (string_of_list_ascii (c :: r)) "Infinity" = false).
  { simpl. now rewrite (digit_not_char c "I" Hc eq_refl). }
  rewrite Ei. unfold unsigned_decimal.
  rewrite (span_digits_all H). simpl is_nil. simpl andb. cbv iota.
  unfold exponent. rewrite app_nil_r.
  change (len (@nil ascii)) with 0.
  change (0 - 0) with 0. change (0 <=? 0) with true. cbv iota.
  f_equal. rewrite Z.pow_0_r. lia.
Qed.

Lemma StringToNumber_digits (l : list ascii) :
  l <> [] -> Forall (fun c => is_digit c = true) l ->
  StringToNumber (string_of_list_ascii l) = Int (decimal_value l).
Proof.
  intros Hne H. unfold StringToNumber.
  rewrite list_ascii_of_string_of_list_ascii, (trim_digits H).
  destruct l as [| c r]; [contradiction |].
  destruct r as [| p ds]; [now apply signed_decimal_digits |].
  inversion H as [| ? ? Hc Hr]; subst. inversion Hr as [| ? ? Hp _]; subst.
  rewrite (digit_not_char p "x" Hp eq_refl), (digit_not_char p "X" Hp eq_refl),
    (digit_not_char p "o" Hp eq_refl), (digit_not_char p "O" Hp eq_refl),
    (digit_not_char p "b" Hp eq_refl), (digit_not_char p "B" Hp eq_refl).
  rewrite !andb_false_r. now apply signed_decimal_digits.
Qed.

Lemma StringToNumber_toString (k : Z) :
  0 <= k -> StringToNumber (toString k) = Int k.
Proof.
  intros Hk. unfold toString.
  destruct k as [| p | p]; [reflexivity | | lia].
  simpl Z.to_int. unfold NilZero.string_of_int, NilZero.string_of_uint.
  pose proof (DecimalPos.Unsigned.to_uint_nonnil p) as Hnn.
  assert (Es : (match Pos.to_uint p with
                | Decimal.Nil => "0"
                | _ => NilEmpty.string_of_uint (Pos.to_uint p)
                end) = NilEmpty.string_of_uint (Pos.to_uint p)).
  { destruct (Pos.to_uint p); [contradiction | reflexivity ..]. }
  rewrite Es.
  rewrite <- (string_of_list_ascii_of_string (NilEmpty.string_of_uint (Pos.to_uint p))).
  rewrite uint_digits_string.
  rewrite StringToNumber_digits.
  - unfold decimal_value. rewrite digits_value_of_uint.
    rewrite DecimalPos.Unsigned.of_to. reflexivity.
  - destruct (Pos.to_uint p); [contradiction | discriminate ..].
  - apply uint_digits_are_digits.
Qed.

(** X15: an opener whose [data-index] attribute is the decimal numeral
    of an index [k] of the project list opens project [k]:
    [Number] reads the numeral back as [k], the click completes without
    raising, and the slides are those of [projects[k]]. *)
Theorem opener_click_decimal_index
  (st : State) (k : Z) (Hk : 0 <= k < len (projects st)) :
  Number_or_0 (Some (toString k)) = Int k /\
  fst (opener_click (Some (toString k)) st) = Normal /\
  currentProject (snd (opener_click (Some (toString k)) st)) = Int k /\
  currentSlide (snd (opener_click (Some (toString k)) st)) = 0 /\
  exists p, item (projects st) k = Some p /\
            slides (snd (opener_click (Some (toString k)) st)) = buildSlides p.
Proof.
  assert (En : Number_or_0 (Some (toString k)) = Int k).
  { simpl. apply StringToNumber_toString. lia. }
  split; [exact En |].
  unfold opener_click. rewrite En.
  destruct (item_in_range (projects st) (proj1 (conj Hk I))) as [p Hp].
  destruct (@openProject_found (Int k) st p Hp) as [l El]. rewrite El. simpl.
  repeat split. exists p. split; [exact Hp | reflexivity].
Qed.

Lemma opener_click_decimal_index_witness :
  Number_or_0 (Some (toString 1)) = Int 1 /\
  fst (opener_click (Some (toString 1))
         (initState [bare_project; demo_project] demo_dom)) = Normal /\
  currentProject
    (snd (opener_click (Some (toString 1))
            (initState [bare_project; demo_project] demo_dom))) = Int 1 /\
  currentSlide
    (snd (opener_click (Some (toString 1))
            (initState [bare_project; demo_project] demo_dom))) = 0 /\
  exists p,
    item (projects (initState [bare_project; demo_project] demo_dom)) 1 = Some p /\
    slides
      (snd (opener_click (Some (toString 1))
              (initState [bare_project; demo_project] demo_dom)))
      = buildSlides p.
Proof.
  apply (@opener_click_decimal_index
           (initState [bare_project; demo_project] demo_dom) 1).
  vm_compute. split; [discriminate | reflexivity].
Defined.

(** ** What [showSlide] leaves alone *)

(** X17: [showSlide] never changes the project list, the open project,
    the slide list, the recorded focus target, the modal's visibility and
    [aria-hidden] or the scroll lock, and it does not itself swap the
    image or the caption: source, [alt], title and detail change only
    when the animation-frame callback runs. *)
Theorem showSlide_frame (i : Z) (st : State) :
  projects (showSlide i st) = projects st /\
  currentProject (showSlide i st) = currentProject st /\
  slides (showSlide i st) = slides st /\
  lastFocused (showSlide i st) = lastFocused st /\
  modal_hidden (dom (showSlide i st)) = modal_hidden (dom st) /\
  modal_aria_hidden (dom (showSlide i st)) = modal_aria_hidden (dom st) /\
  html_overflow (dom (showSlide i st)) = html_overflow (dom st) /\
  body_overflow (dom (showSlide i st)) = body_overflow (dom st) /\
  img_src (dom (showSlide i st)) = img_src (dom st) /\
  img_alt (dom (showSlide i st)) = img_alt (dom st) /\
  title_text (dom (showSlide i st)) = title_text (dom st) /\
  content (dom (showSlide i st)) = content (dom st).
Proof.
  destruct (showSlide_cases i st) as [E | (s & l & _ & E)]; rewrite E;
    repeat split; reflexivity.
Qed.
